(** * File integrity checker: hash store, [init] / [check] / [update]

    A shallow embedding of [integrity-check.py].  The script keeps a JSON
    file that maps file paths to SHA-256 hex digests and offers three
    commands over it.  The development has four layers:

    - [Sha256]: the hash function behind [hashlib.sha256] and its
      [hexdigest], over 32-bit words carried in [Z];
    - [Py]: the few Python values and container operations the script
      applies to whatever [json.load] returned;
    - [Checker]: the functions of the script, in a small monad that threads
      the store file, standard output and raised exceptions;
    - the properties of the three commands. *)

From Stdlib Require Import ZArith Ascii String List Lia.
From Stdlib Require Import Init.Byte.
From stdpp Require Import base option list gmap strings pretty.

Local Open Scope Z_scope.

(* ===================================================================== *)
(** ** SHA-256 (FIPS 180-4), as computed by [hashlib.sha256] *)
(* ===================================================================== *)

Module Sha256.

(** 32-bit words live in [Z]; every addition wraps modulo [2^32]. *)
Definition wrap32 (x : Z) : Z := x mod 2 ^ 32.
Definition add32 (x y : Z) : Z := wrap32 (x + y).
Definition not32 (x : Z) : Z := Z.lxor x 4294967295.

Definition rotr (n x : Z) : Z :=
  Z.lor (Z.shiftr x n) (wrap32 (Z.shiftl x (32 - n))).
Definition shr (n x : Z) : Z := Z.shiftr x n.

Definition Ch (x y z : Z) : Z := Z.lxor (Z.land x y) (Z.land (not32 x) z).
Definition Maj (x y z : Z) : Z :=
  Z.lxor (Z.lxor (Z.land x y) (Z.land x z)) (Z.land y z).
Definition bsig0 (x : Z) : Z := Z.lxor (Z.lxor (rotr 2 x) (rotr 13 x)) (rotr 22 x).
Definition bsig1 (x : Z) : Z := Z.lxor (Z.lxor (rotr 6 x) (rotr 11 x)) (rotr 25 x).
Definition ssig0 (x : Z) : Z := Z.lxor (Z.lxor (rotr 7 x) (rotr 18 x)) (shr 3 x).
Definition ssig1 (x : Z) : Z := Z.lxor (Z.lxor (rotr 17 x) (rotr 19 x)) (shr 10 x).

(** The first primes: the round constants are the first 32 bits of the
    fractional parts of the cube roots of the first sixty-four of them, the
    initial hash value those of the square roots of the first eight. *)
Definition primes64 : list Z :=
  [   2;   3;   5;   7;  11;  13;  17;  19;  23;  29;  31;  37;  41;
     43;  47;  53;  59;  61;  67;  71;  73;  79;  83;  89;  97; 101;
    103; 107; 109; 113; 127; 131; 137; 139; 149; 151; 157; 163; 167;
    173; 179; 181; 191; 193; 197; 199; 211; 223; 227; 229; 233; 239;
    241; 251; 257; 263; 269; 271; 277; 281; 283; 293; 307; 311 ].

(** Integer cube root by bisection on the [k] low bits of the result. *)
Fixpoint cbrt_bits (k : nat) (n r : Z) : Z :=
  match k with
  | O => r
  | S k' =>
      let c := r + 2 ^ Z.of_nat k' in
      if c * c * c <=? n then cbrt_bits k' n c else cbrt_bits k' n r
  end.

Definition frac_cbrt32 (p : Z) : Z := wrap32 (cbrt_bits 36 (p * 2 ^ 96) 0).
Definition frac_sqrt32 (p : Z) : Z := wrap32 (Z.sqrt (p * 2 ^ 64)).

Definition K256 : list Z := Eval vm_compute in List.map frac_cbrt32 primes64.

(** The eight working registers, also the running hash value. *)
Record regs : Type := Regs {
  rA : Z; rB : Z; rC : Z; rD : Z; rE : Z; rF : Z; rG : Z; rH : Z
}.

Definition init_regs : regs :=
  Eval vm_compute in
    Regs (frac_sqrt32 2) (frac_sqrt32 3) (frac_sqrt32 5) (frac_sqrt32 7)
         (frac_sqrt32 11) (frac_sqrt32 13) (frac_sqrt32 17) (frac_sqrt32 19).

Definition byte_val (b : byte) : Z := Z.of_N (Byte.to_N b).

(** Big-endian 32-bit words of a block of bytes. *)
Fixpoint be_words (bs : list byte) : list Z :=
  match bs with
  | b0 :: b1 :: b2 :: b3 :: rest =>
      (Z.shiftl (byte_val b0) 24 + Z.shiftl (byte_val b1) 16
       + Z.shiftl (byte_val b2) 8 + byte_val b3) :: be_words rest
  | _ => []
  end.

Definition byte_of_Z (z : Z) : byte :=
  match Byte.of_N (Z.to_N (z mod 256)) with
  | Some b => b
  | None => x00
  end.

(** The 64-bit big-endian length field that closes the padding. *)
Definition be64 (n : Z) : list byte :=
  List.map (fun k => byte_of_Z (Z.shiftr n (8 * k))) [7; 6; 5; 4; 3; 2; 1; 0].

(** Padding: one [0x80] byte, zero bytes up to 56 modulo 64, the bit length. *)
Definition pad (msg : list byte) : list byte :=
  let len := Z.of_nat (List.length msg) in
  msg ++ x80 :: repeat x00 (Z.to_nat ((55 - len) mod 64)) ++ be64 (8 * len).

(** Message schedule: sixteen words of the block, then forty-eight derived. *)
Fixpoint schedule_ext (n : nat) (t : nat) (w : list Z) : list Z :=
  match n with
  | O => w
  | S n' =>
      let at_ (i : nat) := nth (t - i) w 0 in
      let wt := add32 (add32 (add32 (ssig1 (at_ 2%nat)) (at_ 7%nat))
                             (ssig0 (at_ 15%nat))) (at_ 16%nat) in
      schedule_ext n' (S t) (w ++ [wt])
  end.

Definition schedule (block : list byte) : list Z :=
  schedule_ext 48 16 (be_words block).

Definition round (r : regs) (kw : Z * Z) : regs :=
  let t1 := add32 (add32 (add32 (add32 (rH r) (bsig1 (rE r)))
                                (Ch (rE r) (rF r) (rG r))) (fst kw)) (snd kw) in
  let t2 := add32 (bsig0 (rA r)) (Maj (rA r) (rB r) (rC r)) in
  Regs (add32 t1 t2) (rA r) (rB r) (rC r) (add32 (rD r) t1) (rE r) (rF r) (rG r).

Definition add_regs (x y : regs) : regs :=
  Regs (add32 (rA x) (rA y)) (add32 (rB x) (rB y))
       (add32 (rC x) (rC y)) (add32 (rD x) (rD y))
       (add32 (rE x) (rE y)) (add32 (rF x) (rF y))
       (add32 (rG x) (rG y)) (add32 (rH x) (rH y)).

Definition compress (h : regs) (block : list byte) : regs :=
  add_regs h (fold_left round (combine K256 (schedule block)) h).

(** The padded message is consumed in [n] blocks of 64 bytes. *)
Fixpoint blocks (n : nat) (bs : list byte) : list (list byte) :=
  match n with
  | O => []
  | S n' => firstn 64 bs :: blocks n' (skipn 64 bs)
  end.

Definition sha256 (msg : list byte) : regs :=
  let p := pad msg in
  fold_left compress (blocks (List.length p / 64) p) init_regs.

(** *** Hexadecimal rendering ([hexdigest]) *)

Definition hex_chars : list ascii :=
  [ "0"; "1"; "2"; "3"; "4"; "5"; "6"; "7";
    "8"; "9"; "a"; "b"; "c"; "d"; "e"; "f" ]%char.

Definition hex_digit (z : Z) : ascii :=
  nth (Z.to_nat (Z.land z 15)) hex_chars "0"%char.

Definition hex_word (w : Z) (tail : string) : string :=
  String (hex_digit (Z.shiftr w 28)) (String (hex_digit (Z.shiftr w 24))
  (String (hex_digit (Z.shiftr w 20)) (String (hex_digit (Z.shiftr w 16))
  (String (hex_digit (Z.shiftr w 12)) (String (hex_digit (Z.shiftr w 8))
  (String (hex_digit (Z.shiftr w 4)) (String (hex_digit w) tail))))))).

Definition hex_regs (r : regs) : string :=
  hex_word (rA r) (hex_word (rB r) (hex_word (rC r) (hex_word (rD r)
  (hex_word (rE r) (hex_word (rF r) (hex_word (rG r) (hex_word (rH r)
  EmptyString))))))).

Definition hexdigest (msg : list byte) : string := hex_regs (sha256 msg).

(** *** What a stored digest looks like *)

Definition lower_hex (c : ascii) : bool :=
  let n := nat_of_ascii c in
  ((48 <=? n)%nat && (n <=? 57)%nat) || ((97 <=? n)%nat && (n <=? 102)%nat).

Fixpoint all_lower_hex (s : string) : bool :=
  match s with
  | EmptyString => true
  | String c s' => lower_hex c && all_lower_hex s'
  end.

(** 64 characters, each of [0-9a-f]. *)
Definition is_hex_digest (s : string) : bool :=
  (String.length s =? 64)%nat && all_lower_hex s.

End Sha256.

Local Open Scope string_scope.

(* ===================================================================== *)
(** ** Python values met by the script *)
(* ===================================================================== *)

Module Py.

#[local] Set Warnings "-register-all".

(** Values nested inside the document that [json.load] returns.  The script
    never looks inside arrays or inner objects, so both stay as read. *)
Inductive jvalue : Type :=
| JNull
| JBool (b : bool)
| JNum (literal : string)
| JStr (s : string)
| JArr (items : list jvalue)
| JObj (members : list (string * jvalue)).

(** What [json.load] hands back for a whole document.  A JSON object
    becomes a [dict]; any other document is valid JSON too and is returned
    as the corresponding Python value. *)
Inductive toplevel : Type :=
| TDict (d : gmap string jvalue)
| TList (items : list jvalue)
| TStr (s : string)
| TNull
| TBool (b : bool)
| TNum (literal : string).

Inductive exn : Type :=
| OSError (msg : string)
| TypeError (msg : string)
| KeyError (key : string)
| UnicodeDecodeError (msg : string)
| ValueError (msg : string)
| RecursionError (msg : string).

(** [s == v] for a [str] on the left. *)
Definition str_eq (s : string) (v : jvalue) : bool :=
  match v with
  | JStr s' => String.eqb s s'
  | _ => false
  end.

(** [h == v] where [h] is [None] or a [str] (the result of
    [compute_file_hash]). *)
Definition py_eq (h : option string) (v : jvalue) : bool :=
  match h, v with
  | None, JNull => true
  | Some s, _ => str_eq s v
  | None, _ => false
  end.

(** The JSON value behind [None] or a [str], as [json.dump] writes it. *)
Definition to_json (h : option string) : jvalue :=
  match h with
  | Some s => JStr s
  | None => JNull
  end.

(** Truth value of [None] or a [str]: only a non-empty string is true. *)
Definition truthy (h : option string) : bool :=
  match h with
  | Some (String _ _) => true
  | _ => false
  end.

Fixpoint is_substring (sub s : string) : bool :=
  String.prefix sub s
  || match s with
     | EmptyString => false
     | String _ s' => is_substring sub s'
     end.

(** [key in obj] *)
Definition contains (obj : toplevel) (key : string) : exn + bool :=
  match obj with
  | TDict d => inr (bool_decide (is_Some (d !! key)))
  | TList items => inr (existsb (str_eq key) items)
  | TStr s => inr (is_substring key s)
  | _ => inl (TypeError "argument is not iterable")
  end.

(** [obj[key]] with a [str] key. *)
Definition getitem (obj : toplevel) (key : string) : exn + jvalue :=
  match obj with
  | TDict d =>
      match d !! key with
      | Some v => inr v
      | None => inl (KeyError key)
      end
  | TList _ => inl (TypeError "list indices must be integers or slices, not str")
  | TStr _ => inl (TypeError "string indices must be integers, not 'str'")
  | _ => inl (TypeError "object is not subscriptable")
  end.

(** [obj[key] = value]: only a [dict] accepts a [str] key. *)
Definition setitem (obj : toplevel) (key : string) (value : jvalue)
  : exn + gmap string jvalue :=
  match obj with
  | TDict d => inr (<[key := value]> d)
  | TList _ => inl (TypeError "list indices must be integers or slices, not str")
  | _ => inl (TypeError "object does not support item assignment")
  end.

(** [os.path.join(a, b)] on POSIX. *)
Fixpoint ends_with_sep (s : string) : bool :=
  match s with
  | EmptyString => false
  | String c EmptyString => Ascii.eqb c "/"
  | String _ s' => ends_with_sep s'
  end.

Definition path_join (a b : string) : string :=
  if String.prefix "/" b then b
  else if (String.eqb a "" || ends_with_sep a)%bool then a +:+ b
  else a +:+ "/" +:+ b.

End Py.
Import Py.


(* ===================================================================== *)
(** ** The script *)
(* ===================================================================== *)

Module Checker.

(** *** The world outside the process *)

(** Reading a file to its end in binary mode: its bytes, or the text of the
    [IOError] that [open] or [read] raised. *)
Inductive read_result : Type :=
| ReadOk (content : list byte)
| ReadErr (err : string).

(** How [open(HASH_STORE, 'w')] followed by [json.dump] fares. *)
Inductive write_result : Type :=
| WriteOk
| OpenFails (err : string)      (* [open] raises: the file is left alone *)
| WriteFails (err : string).    (* [open] truncated the file, the dump broke off *)

(** What the process can observe of the file system while one command
    runs, except for the store file itself.  [os_walk d] lists the triples
    [(root, dirs, files)] in the order [os.walk(d)] yields them.  Every
    command reads the files it hashes before it writes the store, so one
    view per command is enough, also when a hashed path names the store
    file; two commands in a row each get their own view. *)
Record Env : Type := {
  isfile : string -> bool;
  isdir : string -> bool;
  open_rb : string -> read_result;
  os_walk : string -> list (string * list string * list string);
  store_write : write_result
}.

(** The file at [HASH_STORE], seen through [open(HASH_STORE, 'r')] and
    [json.load].  [Garbage] is text that decodes but is no JSON document,
    which is the one failure of [json.load] that is a [JSONDecodeError].
    [Rejected e] is every other failure after a successful [open]:
    [UnicodeDecodeError] when the bytes are not text in the encoding of the
    locale, [ValueError] on an integer literal beyond the digit limit,
    [RecursionError] on nesting too deep, [OSError] when the read fails. *)
Inductive store_state : Type :=
| Missing                    (* [open] raises [FileNotFoundError] *)
| Unopenable (err : string)  (* [open] raises another [OSError] *)
| Garbage                    (* [json.load] raises [JSONDecodeError] *)
| Rejected (e : exn)         (* [json.load] raises [e], no [JSONDecodeError] *)
| Holds (doc : toplevel).    (* [json.load] returns [doc] *)

(** [stdout] collects one entry per [print] call; [store_opens] records the
    mode of every [open(HASH_STORE, mode)], in order. *)
Record World : Type := mkWorld {
  store_file : store_state;
  stdout : list string;
  store_opens : list string
}.

(** *** Computations: state, exceptions, and a loop that may not finish *)

Inductive outcome (A : Type) : Type :=
| Return (a : A)
| Raise (e : exn)
| Hang.
Arguments Return {A} a.
Arguments Raise {A} e.
Arguments Hang {A}.

Definition M (A : Type) : Type := World -> outcome A * World.

#[global] Instance M_ret : MRet M := fun A a w => (Return a, w).

#[global] Instance M_bind : MBind M := fun A B k m w =>
  match m w with
  | (Return a, w') => k a w'
  | (Raise e, w') => (Raise e, w')
  | (Hang, w') => (Hang, w')
  end.

Definition raise {A} (e : exn) : M A := fun w => (Raise e, w).
Definition hang {A} : M A := fun w => (Hang, w).

Definition lift {A} (r : exn + A) : M A :=
  match r with
  | inl e => raise e
  | inr a => mret a
  end.

Definition print (line : string) : M unit := fun w =>
  (Return tt, mkWorld (store_file w) (stdout w ++ [line]) (store_opens w)).

Definition open_store (mode : string) : M store_state := fun w =>
  (Return (store_file w),
   mkWorld (store_file w) (stdout w) (store_opens w ++ [mode])).

Definition set_store (s : store_state) : M unit := fun w =>
  (Return tt, mkWorld s (stdout w) (store_opens w)).

Fixpoint print_all (lines : list string) : M unit :=
  match lines with
  | [] => mret tt
  | l :: rest => _ ← print l; print_all rest
  end.

(** *** [compute_file_hash] *)

Definition CHUNK : nat := Z.to_nat 65536.

(** The [while True] loop: [f] is what is left of the file, [sha] the bytes
    fed to the hash object so far.  [fuel] bounds the number of [read]
    calls; [None] means the bound was hit with the loop still running. *)
Fixpoint read_loop (fuel : nat) (sha f : list byte) : option (list byte) :=
  match fuel with
  | O => None
  | S fuel' =>
      match firstn CHUNK f with
      | [] => Some sha
      | data => read_loop fuel' (sha ++ data) (skipn CHUNK f)
      end
  end.

Definition read_all (content : list byte) : option (list byte) :=
  read_loop (S (List.length content)) [] content.

Section WithEnv.

Variable env : Env.

Definition compute_file_hash (file_path : string) : M (option string) :=
  match open_rb env file_path with
  | ReadOk content =>
      match read_all content with
      | Some fed => mret (Some (Sha256.hexdigest fed))
      | None => hang
      end
  | ReadErr e =>
      _ ← print ("Error reading file " +:+ file_path +:+ ": " +:+ e);
      mret None
  end.

(** *** [load_hash_store] and [save_hash_store] *)

Definition load_hash_store : M toplevel :=
  s ← open_store "r";
  match s with
  | Missing => mret (TDict ∅)
  | Unopenable e => raise (OSError e)
  | Garbage => mret (TDict ∅)
  | Rejected e => raise e
  | Holds doc => mret doc
  end.

(** After a completed dump the file parses back to the dictionary that was
    written ([json.load] inverts [json.dump] on string-keyed dictionaries of
    JSON values). *)
Definition save_hash_store (store : gmap string jvalue) : M bool :=
  _ ← open_store "w";
  match store_write env with
  | WriteOk =>
      _ ← set_store (Holds (TDict store));
      mret true
  | OpenFails e =>
      _ ← print ("Error saving hash store: " +:+ e);
      mret false
  | WriteFails e =>
      _ ← set_store Garbage;
      _ ← print ("Error saving hash store: " +:+ e);
      mret false
  end.

(** *** [initialize] *)

(** The paths visited by
    [for root, _, files in os.walk(d): for file in files]. *)
Definition walk_paths (directory : string) : list string :=
  flat_map (fun '(root, _, files) => List.map (path_join root) files)
           (os_walk env directory).

Fixpoint init_walk (paths : list string) (hash_store : gmap string jvalue)
    (processed_files : nat) : M (gmap string jvalue * nat) :=
  match paths with
  | [] => mret (hash_store, processed_files)
  | file_path :: rest =>
      file_hash ← compute_file_hash file_path;
      if truthy file_hash
      then init_walk rest
             (<[file_path := to_json file_hash]> hash_store)
             (S processed_files)
      else init_walk rest hash_store processed_files
  end.

Definition initialize (directory : string) : M bool :=
  if negb (isdir env directory) then
    _ ← print ("Error: " +:+ directory +:+ " is not a valid directory");
    mret false
  else
    '(hash_store, processed_files) ← init_walk (walk_paths directory) ∅ O;
    saved ← save_hash_store hash_store;
    if (saved : bool) then
      _ ← print ("Hashes stored successfully for "
                 +:+ pretty processed_files +:+ " files.");
      mret true
    else mret false.

(** *** [check_file] *)

Definition check_file (file_path : string) : M bool :=
  if negb (isfile env file_path) then
    _ ← print ("Error: " +:+ file_path +:+ " is not a valid file");
    mret false
  else
    hash_store ← load_hash_store;
    current_hash ← compute_file_hash file_path;
    present ← lift (contains hash_store file_path);
    if negb present then
      _ ← print "Status: New file (not in hash store)";
      mret false
    else
      stored ← lift (getitem hash_store file_path);
      if py_eq current_hash stored then
        _ ← print "Status: Unmodified";
        mret true
      else
        _ ← print "Status: Modified (Hash mismatch)";
        mret false.

(** *** [update_file] *)

Definition update_file (file_path : string) : M bool :=
  if negb (isfile env file_path) then
    _ ← print ("Error: " +:+ file_path +:+ " is not a valid file");
    mret false
  else
    current_hash ← compute_file_hash file_path;
    if negb (truthy current_hash) then mret false
    else
      hash_store ← load_hash_store;
      hash_store ← lift (setitem hash_store file_path (to_json current_hash));
      saved ← save_hash_store hash_store;
      if (saved : bool) then
        _ ← print "Hash updated successfully.";
        mret true
      else mret false.

(** *** [check_directory] *)

Fixpoint check_walk (hash_store : toplevel) (paths : list string)
    (modified_files new_files : list string) : M (list string * list string) :=
  match paths with
  | [] => mret (modified_files, new_files)
  | file_path :: rest =>
      current_hash ← compute_file_hash file_path;
      present ← lift (contains hash_store file_path);
      if negb present then
        check_walk hash_store rest modified_files (new_files ++ [file_path])
      else
        stored ← lift (getitem hash_store file_path);
        if negb (py_eq current_hash stored) then
          check_walk hash_store rest (modified_files ++ [file_path]) new_files
        else
          check_walk hash_store rest modified_files new_files
  end.

Definition bullet (file : string) : string := "- " +:+ file.

(** Lines start with a line feed where the script prints ["\n..."]. *)
Definition modified_header : string :=
  String (ascii_of_nat 10) "Modified files:".
Definition new_header : string :=
  String (ascii_of_nat 10) "New files (not in hash store):".

Definition is_nil {A} (l : list A) : bool :=
  match l with [] => true | _ => false end.

Definition check_directory (directory : string) : M bool :=
  if negb (isdir env directory) then
    _ ← print ("Error: " +:+ directory +:+ " is not a valid directory");
    mret false
  else
    hash_store ← load_hash_store;
    '(modified_files, new_files) ←
       check_walk hash_store (walk_paths directory) [] [];
    if is_nil modified_files && is_nil new_files then
      _ ← print "All files unmodified.";
      mret true
    else
      _ ← (if negb (is_nil modified_files) then
             _ ← print modified_header;
             print_all (List.map bullet modified_files)
           else mret tt);
      _ ← (if negb (is_nil new_files) then
             _ ← print new_header;
             print_all (List.map bullet new_files)
           else mret tt);
      mret false.

(** *** [main] *)

Inductive command : Type :=
| CmdInit (directory : string)
| CmdCheck (path : string)
| CmdUpdate (file : string).

Definition main (args : command) : M unit :=
  match args with
  | CmdInit directory => _ ← initialize directory; mret tt
  | CmdCheck path =>
      if isfile env path then _ ← check_file path; mret tt
      else if isdir env path then _ ← check_directory path; mret tt
      else print ("Error: " +:+ path +:+ " is not a valid file or directory")
  | CmdUpdate file => _ ← update_file file; mret tt
  end.

End WithEnv.

End Checker.
Import Checker.

(* ===================================================================== *)
(** ** Vocabulary for the statements *)
(* ===================================================================== *)

(** [say lines w]: the world after printing [lines]; [opened modes w]: the
    world after opening the store file in each of [modes]. *)
Definition say (lines : list string) (w : World) : World :=
  mkWorld (store_file w) (stdout w ++ lines) (store_opens w).

Definition opened (modes : list string) (w : World) : World :=
  mkWorld (store_file w) (stdout w) (store_opens w ++ modes).

Definition with_store (s : store_state) (w : World) : World :=
  mkWorld s (stdout w) (store_opens w).

(** The digest [compute_file_hash] returns for a path, and what it prints
    on the way. *)
Definition digest_of (env : Env) (p : string) : option string :=
  match open_rb env p with
  | ReadOk content => Some (Sha256.hexdigest content)
  | ReadErr _ => None
  end.

Definition hash_report (env : Env) (p : string) : list string :=
  match open_rb env p with
  | ReadOk _ => []
  | ReadErr e => ["Error reading file " +:+ p +:+ ": " +:+ e]
  end.

Definition hash_reports (env : Env) (paths : list string) : list string :=
  flat_map (hash_report env) paths.

(** The document a store file loads as, when loading does not raise, and
    the mapping it loads as, when that document is a dictionary. *)
Definition loaded_doc (s : store_state) : option toplevel :=
  match s with
  | Missing | Garbage => Some (TDict ∅)
  | Unopenable _ | Rejected _ => None
  | Holds doc => Some doc
  end.

(** The exception [load_hash_store] lets through, when loading raises. *)
Definition load_error (s : store_state) : option exn :=
  match s with
  | Unopenable e => Some (OSError e)
  | Rejected e => Some e
  | Missing | Garbage | Holds _ => None
  end.

Definition loaded_dict (s : store_state) : option (gmap string jvalue) :=
  match loaded_doc s with
  | Some (TDict d) => Some d
  | _ => None
  end.

(** The mapping [initialize] accumulates over the walked paths. *)
Definition record_file (env : Env) (store : gmap string jvalue) (p : string)
  : gmap string jvalue :=
  match digest_of env p with
  | Some h => <[p := JStr h]> store
  | None => store
  end.

Definition init_store (env : Env) (paths : list string)
    (store : gmap string jvalue) : gmap string jvalue :=
  fold_left (record_file env) paths store.

Definition hashed_count (env : Env) (paths : list string) : nat :=
  List.length (List.filter (fun p => bool_decide (is_Some (digest_of env p))) paths).

(** The three verdicts of [check] on one file, in the words of the
    specification: absent from the store, equal digest, unequal digest. *)
Inductive verdict : Type := New | Unmodified | Modified.

Definition classify (store : gmap string jvalue) (p : string)
    (current : option string) : verdict :=
  match store !! p with
  | None => New
  | Some stored => if py_eq current stored then Unmodified else Modified
  end.

Definition verdict_line (v : verdict) : string :=
  match v with
  | New => "Status: New file (not in hash store)"
  | Unmodified => "Status: Unmodified"
  | Modified => "Status: Modified (Hash mismatch)"
  end.

Definition verdict_ok (v : verdict) : bool :=
  match v with Unmodified => true | _ => false end.

Definition is_verdict (v v' : verdict) : bool :=
  match v, v' with
  | New, New | Unmodified, Unmodified | Modified, Modified => true
  | _, _ => false
  end.

(** The two lists [check_directory] accumulates. *)
Definition new_paths (env : Env) (store : gmap string jvalue)
    (paths : list string) : list string :=
  List.filter (fun p => is_verdict New (classify store p (digest_of env p))) paths.

Definition modified_paths (env : Env) (store : gmap string jvalue)
    (paths : list string) : list string :=
  List.filter (fun p => is_verdict Modified (classify store p (digest_of env p))) paths.

Definition listing (header : string) (files : list string) : list string :=
  match files with
  | [] => []
  | _ => header :: List.map bullet files
  end.

(** The store invariant: every value of the persisted mapping is a string
    of 64 lowercase hexadecimal characters. *)
Definition is_digest_value (v : jvalue) : bool :=
  match v with
  | JStr h => Sha256.is_hex_digest h
  | _ => false
  end.

Definition digests_only (s : store_state) : Prop :=
  match s with
  | Holds (TDict d) => map_Forall (fun _ v => is_digest_value v = true) d
  | _ => True
  end.


(** A computation that leaves the store file alone, whatever it returns or
    raises. *)
Definition keeps_store {A} (m : M A) : Prop :=
  forall w, store_file (m w).2 = store_file w.

(** What [check_directory] prints once the walk is over. *)
Definition directory_report (modified_files new_files : list string)
  : list string :=
  if is_nil modified_files && is_nil new_files
  then ["All files unmodified."]
  else (listing modified_header modified_files
        ++ listing new_header new_files)%list.

(* ===================================================================== *)
(** ** Concrete scenarios *)
(* ===================================================================== *)

(** A directory [D] with two readable logs and one the process may not
    read, and a readable file [a.log] outside of it. *)
Definition demo_env : Env := {|
  isfile := fun p =>
    existsb (String.eqb p) ["D/x.log"; "D/y.log"; "D/z.log"; "a.log"];
  isdir := fun p => String.eqb p "D";
  open_rb := fun p =>
    if String.eqb p "D/x.log" then ReadOk (list_byte_of_string "AAA")
    else if String.eqb p "D/y.log" then ReadOk (list_byte_of_string "BBB")
    else if String.eqb p "a.log" then ReadOk (list_byte_of_string "hello")
    else ReadErr "[Errno 13] Permission denied";
  os_walk := fun d =>
    if String.eqb d "D" then [("D", [], ["x.log"; "y.log"; "z.log"])] else [];
  store_write := WriteOk
|}.

(** The same files after ["C"] was appended to [D/x.log]. *)
Definition demo_env_appended : Env := {|
  isfile := isfile demo_env;
  isdir := isdir demo_env;
  open_rb := fun p =>
    if String.eqb p "D/x.log" then ReadOk (list_byte_of_string "AAAC")
    else open_rb demo_env p;
  os_walk := os_walk demo_env;
  store_write := WriteOk
|}.

(** First run: no store file yet, nothing printed. *)
Definition fresh_world : World := mkWorld Missing [] [].

(** A store file the process is not allowed to open. *)
Definition locked_world : World :=
  mkWorld (Unopenable "[Errno 13] Permission denied") [] [].


(** A store file that went through [json.dump] with one tracked path. *)
Definition tracked_world : World :=
  mkWorld
    (Holds (TDict {[ "D/z.log" :=
       JStr "e3b0c44298fc1c149afbf4c8996fb92427ae41e4649b934ca495991b7852b855" ]}))
    [] [].

(* ===================================================================== *)
(** ** Further vocabulary *)
(* ===================================================================== *)

(** A computation after which an observation [f] of the world reads as it
    did before, whatever the computation returns or raises. *)
Definition preserves {X A} (f : World -> X) (m : M A) : Prop :=
  forall w, f (m w).2 = f w.


(** A directory [E] in which nothing can be hashed, beside the files of
    [demo_env]. *)
Definition barren_env : Env := {|
  isfile := isfile demo_env;
  isdir := fun p => String.eqb p "E" || isdir demo_env p;
  open_rb := open_rb demo_env;
  os_walk := fun d =>
    if String.eqb d "E" then [("E", ["sub"], ["lock"]); ("E/sub", [], [])]
    else os_walk demo_env d;
  store_write := WriteOk
|}.

(** The files of [demo_env] once [D/z.log] has been removed from [D]. *)
Definition tidy_env : Env := {|
  isfile := isfile demo_env;
  isdir := isdir demo_env;
  open_rb := open_rb demo_env;
  os_walk := fun d =>
    if String.eqb d "D" then [("D", [], ["x.log"; "y.log"])] else [];
  store_write := WriteOk
|}.

(** The files of [demo_env] with a store file that cannot be opened for
    writing. *)
Definition readonly_env : Env := {|
  isfile := isfile demo_env;
  isdir := isdir demo_env;
  open_rb := open_rb demo_env;
  os_walk := os_walk demo_env;
  store_write := OpenFails "[Errno 13] Permission denied"
|}.

(** A home directory at first run, holding [notes.txt] and no store file
    yet, and the same directory once [initialize] has created the store
    file in it: the walk now yields that file too. *)
Definition home_env : Env := {|
  isfile := fun p => String.eqb p "/home/u/notes.txt";
  isdir := fun p => String.eqb p "/home/u";
  open_rb := fun p =>
    if String.eqb p "/home/u/notes.txt" then ReadOk (list_byte_of_string "todo")
    else ReadErr "[Errno 2] No such file or directory";
  os_walk := fun d =>
    if String.eqb d "/home/u" then [("/home/u", [], ["notes.txt"])] else [];
  store_write := WriteOk
|}.

Definition home_env_after : Env := {|
  isfile := fun p =>
    String.eqb p "/home/u/notes.txt"
    || String.eqb p "/home/u/.log_integrity_store.json";
  isdir := isdir home_env;
  open_rb := fun p =>
    if String.eqb p "/home/u/.log_integrity_store.json"
    then ReadOk (list_byte_of_string "{}")
    else open_rb home_env p;
  os_walk := fun d =>
    if String.eqb d "/home/u"
    then [("/home/u", [], [".log_integrity_store.json"; "notes.txt"])]
    else [];
  store_write := WriteOk
|}.

(** A store file holding the JSON array [[]], and one holding
    [{"D/z.log": null}]. *)
Definition array_world : World := mkWorld (Holds (TList [])) [] [].

Definition null_world : World :=
  mkWorld (Holds (TDict {[ "D/z.log" := JNull ]})) [] [].

(* ===================================================================== *)
(** ** Test vectors *)
(* ===================================================================== *)

Example K256_first_last :
  hd 0 Sha256.K256 = 0x428a2f98 /\ last Sha256.K256 = Some 0xc67178f2
  /\ List.length Sha256.K256 = 64%nat.
Proof. vm_compute. auto. Qed.

Example init_regs_first_last :
  Sha256.rA Sha256.init_regs = 0x6a09e667
  /\ Sha256.rH Sha256.init_regs = 0x5be0cd19.
Proof. vm_compute. auto. Qed.

Example sha256_empty :
  Sha256.hexdigest [] =
  "e3b0c44298fc1c149afbf4c8996fb92427ae41e4649b934ca495991b7852b855".
Proof. vm_compute. reflexivity. Qed.

Example sha256_abc :
  Sha256.hexdigest (list_byte_of_string "abc") =
  "ba7816bf8f01cfea414140de5dae2223b00361a396177a9cb410ff61f20015ad".
Proof. vm_compute. reflexivity. Qed.

Example sha256_two_blocks :
  Sha256.hexdigest
    (list_byte_of_string
       "abcdbcdecdefdefgefghfghighijhijkijkljklmklmnlmnomnopnopq") =
  "248d6a61d20638b8e5c026930c3e6039a33ce45964ff2167f6ecedd419db06c1".
Proof. vm_compute. reflexivity. Qed.

Example path_join_plain : path_join "logs" "x.log" = "logs/x.log".
Proof. reflexivity. Qed.

Example path_join_trailing_sep : path_join "logs/" "x.log" = "logs/x.log".
Proof. reflexivity. Qed.

Example path_join_absolute : path_join "logs" "/x.log" = "/x.log".
Proof. reflexivity. Qed.

Example first_run_init :
  initialize demo_env "D" fresh_world
  = (Return true,
     mkWorld
       (Holds (TDict
          {[ "D/x.log" :=
               JStr "cb1ad2119d8fafb69566510ee712661f9f14b83385006ef92aec47f523a38358";
             "D/y.log" :=
               JStr "dcdb704109a454784b81229d2b05f368692e758bfa33cb61d04c1b93791b0273" ]}))
       ["Error reading file D/z.log: [Errno 13] Permission denied";
        "Hashes stored successfully for 2 files."]
       ["w"]).
Proof. vm_compute. reflexivity. Qed.

(* ===================================================================== *)
(** ** Digests are 64 lowercase hexadecimal characters *)
(* ===================================================================== *)

Section HexFacts.

Import Sha256.

Lemma hex_digit_lower (z : Z) : lower_hex (hex_digit z) = true.
Proof.
  unfold hex_digit.
  assert (Hall : Forall (fun c => lower_hex c = true) hex_chars).
  { unfold hex_chars. repeat constructor. }
  generalize (Z.to_nat (Z.land z 15)); intro n.
  destruct (nth_in_or_default n hex_chars "0"%char) as [Hin | ->].
  - rewrite Forall_forall in Hall. apply Hall. apply list_elem_of_In. exact Hin.
  - reflexivity.
Qed.

Lemma hex_word_length (w : Z) (tail : string) :
  String.length (hex_word w tail) = (8 + String.length tail)%nat.
Proof. reflexivity. Qed.

Lemma hex_word_lower (w : Z) (tail : string) :
  all_lower_hex tail = true -> all_lower_hex (hex_word w tail) = true.
Proof.
  intros Ht. unfold hex_word. cbn [all_lower_hex].
  rewrite !hex_digit_lower, Ht. reflexivity.
Qed.

Lemma hex_regs_is_hex_digest (r : regs) : is_hex_digest (hex_regs r) = true.
Proof.
  unfold is_hex_digest, hex_regs.
  apply andb_true_intro; split.
  - rewrite !hex_word_length. reflexivity.
  - repeat apply hex_word_lower. reflexivity.
Qed.

Lemma hexdigest_is_hex_digest (msg : list byte) :
  is_hex_digest (hexdigest msg) = true.
Proof. apply hex_regs_is_hex_digest. Qed.

Lemma hexdigest_length (msg : list byte) : String.length (hexdigest msg) = 64%nat.
Proof. unfold hexdigest, hex_regs. rewrite !hex_word_length. reflexivity. Qed.

Lemma hexdigest_truthy (msg : list byte) : truthy (Some (hexdigest msg)) = true.
Proof. reflexivity. Qed.

End HexFacts.

(* ===================================================================== *)
(** ** The read loop feeds the whole file to the hash object *)
(* ===================================================================== *)

Lemma CHUNK_pos : (0 < CHUNK)%nat.
Proof. unfold CHUNK. lia. Qed.

Lemma firstn_nil_inv {A} (n : nat) (l : list A) :
  (0 < n)%nat -> firstn n l = [] -> l = [].
Proof. destruct n, l; simpl; intros; (lia || congruence). Qed.

Lemma read_loop_feeds_all (fuel : nat) :
  forall sha f : list byte,
    (List.length f < fuel)%nat -> read_loop fuel sha f = Some (sha ++ f)%list.
Proof.
  pose proof CHUNK_pos as Hpos.
  induction fuel as [| fuel IH]; intros sha f Hlen; [lia |].
  cbn [read_loop].
  destruct (firstn CHUNK f) as [| b data] eqn:Hdata.
  - apply firstn_nil_inv in Hdata; [| exact Hpos]. subst f.
    rewrite app_nil_r. reflexivity.
  - rewrite IH.
    + rewrite <- Hdata, <- app_assoc, firstn_skipn. reflexivity.
    + rewrite length_skipn.
      destruct f as [| b' f']; [rewrite firstn_nil in Hdata; discriminate |].
      cbn [List.length] in *. lia.
Qed.

Lemma read_all_total (content : list byte) : read_all content = Some content.
Proof. unfold read_all. rewrite read_loop_feeds_all; [reflexivity | lia]. Qed.

(* ===================================================================== *)
(** ** Running the monad *)
(* ===================================================================== *)

Lemma bind_return {A B} (m : M A) (k : A -> M B) (w w' : World) (a : A) :
  m w = (Return a, w') -> (m ≫= k) w = k a w'.
Proof. intros H. unfold mbind, M_bind. rewrite H. reflexivity. Qed.

Lemma bind_raise {A B} (m : M A) (k : A -> M B) (w w' : World) (e : exn) :
  m w = (Raise e, w') -> (m ≫= k) w = (Raise e, w').
Proof. intros H. unfold mbind, M_bind. rewrite H. reflexivity. Qed.

Lemma say_nil (w : World) : say [] w = w.
Proof. destruct w. unfold say. simpl. rewrite app_nil_r. reflexivity. Qed.

Lemma say_say (l1 l2 : list string) (w : World) :
  say l2 (say l1 w) = say (l1 ++ l2) w.
Proof. unfold say. simpl. rewrite app_assoc. reflexivity. Qed.

Lemma print_spec (line : string) (w : World) :
  print line w = (Return tt, say [line] w).
Proof. reflexivity. Qed.

Lemma print_all_spec (lines : list string) (w : World) :
  print_all lines w = (Return tt, say lines w).
Proof.
  revert w. induction lines as [| l rest IH]; intros w; cbn [print_all].
  - rewrite say_nil. reflexivity.
  - erewrite bind_return by apply print_spec.
    rewrite IH, say_say. reflexivity.
Qed.

(** Unfolds one monadic step of the goal with a known equation. *)
Ltac step_with lem := erewrite bind_return by (apply lem; eassumption).

Section FunctionFacts.

Variable env : Env.

Lemma compute_file_hash_spec (p : string) (w : World) :
  compute_file_hash env p w
  = (Return (digest_of env p), say (hash_report env p) w).
Proof.
  unfold compute_file_hash, digest_of, hash_report.
  destruct (open_rb env p) as [content | e].
  - rewrite read_all_total, say_nil. reflexivity.
  - reflexivity.
Qed.

(** [compute_file_hash] always comes back: the loop bound is never hit and
    an [IOError] is caught. *)
Lemma compute_file_hash_returns (p : string) (w : World) :
  exists h w', compute_file_hash env p w = (Return h, w').
Proof. rewrite compute_file_hash_spec. eauto. Qed.

Lemma digest_of_truthy (p : string) (h : string) :
  digest_of env p = Some h -> truthy (Some h) = true.
Proof.
  unfold digest_of. destruct (open_rb env p); [| discriminate].
  intros [= <-]. apply hexdigest_truthy.
Qed.

Lemma truthy_digest_of (p : string) :
  truthy (digest_of env p) = bool_decide (is_Some (digest_of env p)).
Proof.
  destruct (digest_of env p) as [h |] eqn:E.
  - rewrite (digest_of_truthy p h E). symmetry. apply bool_decide_eq_true. eauto.
  - symmetry. apply bool_decide_eq_false. intros [? ?]. discriminate.
Qed.

Lemma load_hash_store_ok (w : World) (doc : toplevel) :
  loaded_doc (store_file w) = Some doc ->
  load_hash_store w = (Return doc, opened ["r"] w).
Proof.
  destruct w as [s out ops]. unfold load_hash_store, loaded_doc. simpl.
  intros H. erewrite bind_return by reflexivity. simpl.
  destruct s; simplify_eq; reflexivity.
Qed.

Lemma load_hash_store_raises (w : World) (e : string) :
  store_file w = Unopenable e ->
  load_hash_store w = (Raise (OSError e), opened ["r"] w).
Proof.
  destruct w as [s out ops]. unfold load_hash_store. simpl. intros ->.
  erewrite bind_return by reflexivity. reflexivity.
Qed.

Lemma load_hash_store_fails (w : World) (e : exn) :
  load_error (store_file w) = Some e ->
  load_hash_store w = (Raise e, opened ["r"] w).
Proof.
  destruct w as [s out ops]. unfold load_hash_store, load_error. simpl.
  intros H. erewrite bind_return by reflexivity. simpl.
  destruct s; simplify_eq; reflexivity.
Qed.

Lemma loaded_doc_none (s : store_state) :
  loaded_doc s = None -> exists e, load_error s = Some e.
Proof. destruct s; simpl; intros; simplify_eq; eauto. Qed.

Lemma save_hash_store_ok (store : gmap string jvalue) (w : World) :
  store_write env = WriteOk ->
  save_hash_store env store w
  = (Return true, with_store (Holds (TDict store)) (opened ["w"] w)).
Proof. unfold save_hash_store. intros ->. reflexivity. Qed.

Lemma save_hash_store_open_fails (store : gmap string jvalue) (w : World) e :
  store_write env = OpenFails e ->
  save_hash_store env store w
  = (Return false, say ["Error saving hash store: " +:+ e] (opened ["w"] w)).
Proof. unfold save_hash_store. intros ->. reflexivity. Qed.

Lemma save_hash_store_write_fails (store : gmap string jvalue) (w : World) e :
  store_write env = WriteFails e ->
  save_hash_store env store w
  = (Return false,
     say ["Error saving hash store: " +:+ e] (with_store Garbage (opened ["w"] w))).
Proof. unfold save_hash_store. intros ->. reflexivity. Qed.


Lemma init_walk_spec (paths : list string) :
  forall (store : gmap string jvalue) (n : nat) (w : World),
    init_walk env paths store n w
    = (Return (init_store env paths store, (n + hashed_count env paths)%nat),
       say (hash_reports env paths) w).
Proof.
  induction paths as [| p rest IH]; intros store n w; cbn [init_walk].
  - unfold hashed_count, hash_reports. simpl.
    rewrite say_nil, Nat.add_0_r. reflexivity.
  - step_with compute_file_hash_spec.
    unfold init_store, hashed_count, hash_reports in *.
    cbn [fold_left flat_map List.filter].
    rewrite truthy_digest_of. unfold record_file at 2.
    destruct (digest_of env p) as [h |] eqn:E.
    + rewrite bool_decide_eq_true_2 by eauto.
      rewrite IH, say_say. cbn [List.length to_json].
      rewrite Nat.add_succ_r. reflexivity.
    + rewrite bool_decide_eq_false_2 by (intros [? ?]; discriminate).
      rewrite IH, say_say. reflexivity.
Qed.

End FunctionFacts.

(* ===================================================================== *)
(** ** What each command does, case by case *)
(* ===================================================================== *)

Section CommandFacts.

Variable env : Env.

Lemma loaded_dict_doc (s : store_state) (d : gmap string jvalue) :
  loaded_dict s = Some d -> loaded_doc s = Some (TDict d).
Proof.
  unfold loaded_dict. destruct (loaded_doc s) as [[]|]; intros; simplify_eq.
  reflexivity.
Qed.

(** [check_file] on a regular file, with a store that loads as a mapping. *)
Lemma check_file_spec (p : string) (w : World) (d : gmap string jvalue) :
  isfile env p = true ->
  loaded_dict (store_file w) = Some d ->
  let v := classify d p (digest_of env p) in
  check_file env p w
  = (Return (verdict_ok v),
     say (hash_report env p ++ [verdict_line v]) (opened ["r"] w)).
Proof.
  intros Hfile Hd v. unfold check_file. rewrite Hfile. cbn [negb].
  apply loaded_dict_doc in Hd. step_with load_hash_store_ok.
  step_with compute_file_hash_spec.
  subst v. unfold classify. cbn [contains getitem lift].
  destruct (d !! p) as [stored |] eqn:E.
  - erewrite bind_return by reflexivity.
    rewrite bool_decide_eq_true_2 by eauto. cbn [negb].
    erewrite bind_return by reflexivity.
    destruct (py_eq (digest_of env p) stored);
      (erewrite bind_return by apply print_spec);
      rewrite say_say; reflexivity.
  - erewrite bind_return by reflexivity.
    rewrite bool_decide_eq_false_2 by (intros [? ?]; discriminate). cbn [negb].
    erewrite bind_return by apply print_spec.
    rewrite say_say. reflexivity.
Qed.

Lemma check_file_not_file (p : string) (w : World) :
  isfile env p = false ->
  check_file env p w
  = (Return false, say ["Error: " +:+ p +:+ " is not a valid file"] w).
Proof. intros H. unfold check_file. rewrite H. reflexivity. Qed.

Lemma update_file_not_file (p : string) (w : World) :
  isfile env p = false ->
  update_file env p w
  = (Return false, say ["Error: " +:+ p +:+ " is not a valid file"] w).
Proof. intros H. unfold update_file. rewrite H. reflexivity. Qed.

(** A regular file that cannot be read: [update_file] gives up right after
    [compute_file_hash]. *)
Lemma update_file_unreadable (p : string) (w : World) :
  isfile env p = true ->
  digest_of env p = None ->
  update_file env p w = (Return false, say (hash_report env p) w).
Proof.
  intros Hfile Hnone. unfold update_file. rewrite Hfile. cbn [negb].
  step_with compute_file_hash_spec. rewrite Hnone. reflexivity.
Qed.

(** A readable regular file: everything up to [save_hash_store]. *)
Lemma update_file_readable (p : string) (w : World) (h : string) :
  isfile env p = true ->
  digest_of env p = Some h ->
  update_file env p w
  = (hash_store ← load_hash_store;
     hash_store ← lift (setitem hash_store p (JStr h));
     saved ← save_hash_store env hash_store;
     if (saved : bool) then _ ← print "Hash updated successfully."; mret true
     else mret false) (say [] w).
Proof.
  intros Hfile Hsome. unfold update_file. rewrite Hfile. cbn [negb].
  step_with compute_file_hash_spec.
  unfold hash_report, digest_of in *.
  destruct (open_rb env p); [| discriminate]. simplify_eq.
  rewrite hexdigest_truthy. reflexivity.
Qed.

(** The successful run of [update_file]. *)
Lemma update_file_ok (p : string) (w : World) (h : string)
    (d : gmap string jvalue) :
  isfile env p = true ->
  digest_of env p = Some h ->
  loaded_dict (store_file w) = Some d ->
  store_write env = WriteOk ->
  update_file env p w
  = (Return true,
     say ["Hash updated successfully."]
         (with_store (Holds (TDict (<[p := JStr h]> d))) (opened ["r"; "w"] w))).
Proof.
  intros Hfile Hh Hd Hw.
  rewrite (update_file_readable p w h Hfile Hh), say_nil.
  apply loaded_dict_doc in Hd. step_with load_hash_store_ok.
  cbn [setitem lift]. erewrite bind_return by reflexivity.
  erewrite bind_return by (apply save_hash_store_ok; exact Hw).
  cbv beta iota. erewrite bind_return by apply print_spec.
  destruct w. unfold say, with_store, opened. simpl.
  rewrite <- app_assoc. reflexivity.
Qed.

(** Whatever happens, [update_file] leaves the store file as it was,
    truncated by a dump that broke off, or holding the old mapping with the
    fresh digest added. *)
Lemma update_file_store_cases (p : string) (w : World) :
  let s' := store_file (update_file env p w).2 in
  s' = store_file w
  \/ s' = Garbage
  \/ exists content d,
       open_rb env p = ReadOk content
       /\ loaded_dict (store_file w) = Some d
       /\ s' = Holds (TDict (<[p := JStr (Sha256.hexdigest content)]> d)).
Proof.
  cbn zeta.
  destruct (isfile env p) eqn:Hfile;
    [| rewrite update_file_not_file by done; left; reflexivity].
  destruct (digest_of env p) as [h |] eqn:Hh;
    [| rewrite update_file_unreadable by done; left; reflexivity].
  rewrite (update_file_readable p w h Hfile Hh), say_nil.
  destruct (loaded_doc (store_file w)) as [doc |] eqn:Hdoc.
  - step_with load_hash_store_ok.
    destruct doc as [d | | | | |];
      try (erewrite bind_raise by reflexivity; left; reflexivity).
    cbn [setitem lift]. erewrite bind_return by reflexivity.
    destruct (store_write env) eqn:Hw.
    + erewrite bind_return by (apply save_hash_store_ok; exact Hw).
      right; right.
      unfold digest_of in Hh. destruct (open_rb env p) as [content |]; [| discriminate].
      exists content, d. simplify_eq.
      split; [reflexivity |]. split; [| reflexivity].
      unfold loaded_dict. rewrite Hdoc. reflexivity.
    + erewrite bind_return by (apply save_hash_store_open_fails; exact Hw).
      left. reflexivity.
    + erewrite bind_return by (apply save_hash_store_write_fails; exact Hw).
      right; left. reflexivity.
  - destruct (loaded_doc_none _ Hdoc) as [e He].
    erewrite bind_raise by (apply load_hash_store_fails; exact He).
    left. reflexivity.
Qed.

Lemma initialize_not_dir (directory : string) (w : World) :
  isdir env directory = false ->
  initialize env directory w
  = (Return false,
     say ["Error: " +:+ directory +:+ " is not a valid directory"] w).
Proof. intros H. unfold initialize. rewrite H. reflexivity. Qed.

(** [initialize] on a directory: everything up to [save_hash_store]. *)
Lemma initialize_dir (directory : string) (w : World) :
  isdir env directory = true ->
  let paths := walk_paths env directory in
  initialize env directory w
  = (saved ← save_hash_store env (init_store env paths ∅);
     if (saved : bool) then
       _ ← print ("Hashes stored successfully for "
                  +:+ pretty (hashed_count env paths) +:+ " files.");
       mret true
     else mret false) (say (hash_reports env paths) w).
Proof.
  intros H paths. unfold initialize. rewrite H. cbn [negb].
  step_with init_walk_spec. reflexivity.
Qed.

Lemma initialize_ok (directory : string) (w : World) :
  isdir env directory = true ->
  store_write env = WriteOk ->
  let paths := walk_paths env directory in
  initialize env directory w
  = (Return true,
     say (hash_reports env paths
          ++ ["Hashes stored successfully for "
              +:+ pretty (hashed_count env paths) +:+ " files."])
         (with_store (Holds (TDict (init_store env paths ∅))) (opened ["w"] w))).
Proof.
  intros Hdir Hw paths. rewrite (initialize_dir directory w Hdir).
  erewrite bind_return by (apply save_hash_store_ok; exact Hw).
  cbv beta iota. erewrite bind_return by apply print_spec.
  destruct w. unfold say, with_store, opened. simpl.
  rewrite <- app_assoc. reflexivity.
Qed.

Lemma initialize_store_cases (directory : string) (w : World) :
  let s' := store_file (initialize env directory w).2 in
  s' = store_file w
  \/ s' = Garbage
  \/ s' = Holds (TDict (init_store env (walk_paths env directory) ∅)).
Proof.
  cbn zeta.
  destruct (isdir env directory) eqn:Hdir;
    [| rewrite initialize_not_dir by done; left; reflexivity].
  destruct (store_write env) eqn:Hw.
  - rewrite initialize_ok by done. right; right. reflexivity.
  - rewrite (initialize_dir directory w Hdir).
    erewrite bind_return by (apply save_hash_store_open_fails; exact Hw).
    left. reflexivity.
  - rewrite (initialize_dir directory w Hdir).
    erewrite bind_return by (apply save_hash_store_write_fails; exact Hw).
    right; left. reflexivity.
Qed.

End CommandFacts.

(* ===================================================================== *)
(** ** [check_directory] *)
(* ===================================================================== *)

Section DirectoryFacts.

Variable env : Env.

Lemma check_walk_spec (d : gmap string jvalue) (paths : list string) :
  forall (modified_files new_files : list string) (w : World),
    check_walk env (TDict d) paths modified_files new_files w
    = (Return ((modified_files ++ modified_paths env d paths)%list,
               (new_files ++ new_paths env d paths)%list),
       say (hash_reports env paths) w).
Proof.
  induction paths as [| p rest IH]; intros ms ns w; cbn [check_walk].
  - unfold modified_paths, new_paths, hash_reports. simpl.
    rewrite !app_nil_r, say_nil. reflexivity.
  - step_with compute_file_hash_spec.
    unfold modified_paths, new_paths, hash_reports in *.
    cbn [List.filter flat_map contains getitem lift].
    erewrite bind_return by reflexivity.
    remember (classify d p (digest_of env p)) as v eqn:Hv.
    unfold classify in Hv.
    destruct (d !! p) as [stored |] eqn:E.
    + rewrite bool_decide_eq_true_2 by eauto. cbn [negb].
      erewrite bind_return by reflexivity.
      destruct (py_eq (digest_of env p) stored); subst v; cbn [negb is_verdict];
        rewrite IH, say_say, <- ?app_assoc; reflexivity.
    + rewrite bool_decide_eq_false_2 by (intros [? ?]; discriminate).
      subst v. cbn [negb is_verdict].
      rewrite IH, say_say, <- ?app_assoc. reflexivity.
Qed.

Lemma listing_spec (header : string) (files : list string) (w : World) :
  (if negb (is_nil files)
   then _ ← print header; print_all (List.map bullet files)
   else mret tt) w
  = (Return tt, say (listing header files) w).
Proof.
  destruct files as [| f rest]; cbn [is_nil negb listing].
  - rewrite say_nil. reflexivity.
  - erewrite bind_return by apply print_spec.
    rewrite print_all_spec, say_say. reflexivity.
Qed.

Lemma check_directory_not_dir (directory : string) (w : World) :
  isdir env directory = false ->
  check_directory env directory w
  = (Return false,
     say ["Error: " +:+ directory +:+ " is not a valid directory"] w).
Proof. intros H. unfold check_directory. rewrite H. reflexivity. Qed.

Lemma check_directory_spec (directory : string) (w : World)
    (d : gmap string jvalue) :
  isdir env directory = true ->
  loaded_dict (store_file w) = Some d ->
  let paths := walk_paths env directory in
  let modified_files := modified_paths env d paths in
  let new_files := new_paths env d paths in
  check_directory env directory w
  = (Return (is_nil modified_files && is_nil new_files),
     say (hash_reports env paths ++ directory_report modified_files new_files)
         (opened ["r"] w)).
Proof.
  intros Hdir Hd paths ms ns. unfold check_directory. rewrite Hdir. cbn [negb].
  apply loaded_dict_doc in Hd. step_with load_hash_store_ok.
  step_with check_walk_spec. cbn [app]. fold paths ms ns.
  unfold directory_report.
  destruct (is_nil ms && is_nil ns).
  - erewrite bind_return by apply print_spec. rewrite say_say. reflexivity.
  - erewrite bind_return by apply listing_spec.
    erewrite bind_return by apply listing_spec.
    rewrite !say_say, <- ?app_assoc. reflexivity.
Qed.

End DirectoryFacts.

(* ===================================================================== *)
(** ** Computations that leave the store file alone *)
(* ===================================================================== *)

Section KeepsStore.

Lemma keeps_mret {A} (a : A) : keeps_store (mret a : M A).
Proof. intros w. reflexivity. Qed.

Lemma keeps_raise {A} (e : exn) : keeps_store (raise e : M A).
Proof. intros w. reflexivity. Qed.

Lemma keeps_hang {A} : keeps_store (hang : M A).
Proof. intros w. reflexivity. Qed.

Lemma keeps_lift {A} (r : exn + A) : keeps_store (lift r).
Proof. destruct r; [apply keeps_raise | apply keeps_mret]. Qed.

Lemma keeps_print (line : string) : keeps_store (print line).
Proof. intros w. reflexivity. Qed.

Lemma keeps_open_store (mode : string) : keeps_store (open_store mode).
Proof. intros w. reflexivity. Qed.

Lemma keeps_bind {A B} (m : M A) (k : A -> M B) :
  keeps_store m -> (forall a, keeps_store (k a)) -> keeps_store (m ≫= k).
Proof.
  intros Hm Hk w. unfold mbind, M_bind.
  specialize (Hm w). destruct (m w) as [[a | e |] w']; simpl in *.
  - rewrite Hk. exact Hm.
  - exact Hm.
  - exact Hm.
Qed.

Lemma keeps_if {A} (b : bool) (m1 m2 : M A) :
  keeps_store m1 -> keeps_store m2 -> keeps_store (if b then m1 else m2).
Proof. destruct b; auto. Qed.

Lemma keeps_print_all (lines : list string) : keeps_store (print_all lines).
Proof.
  induction lines as [| l rest IH]; cbn [print_all].
  - apply keeps_mret.
  - apply keeps_bind; [apply keeps_print | intros _; exact IH].
Qed.

Variable env : Env.

Lemma keeps_compute_file_hash (p : string) :
  keeps_store (compute_file_hash env p).
Proof. intros w. rewrite compute_file_hash_spec. reflexivity. Qed.

Lemma keeps_load_hash_store : keeps_store load_hash_store.
Proof.
  unfold load_hash_store. apply keeps_bind; [apply keeps_open_store |].
  intros [| e | | e | doc]; (apply keeps_mret || apply keeps_raise).
Qed.

Lemma keeps_check_file (p : string) : keeps_store (check_file env p).
Proof.
  unfold check_file. apply keeps_if.
  { apply keeps_bind; [apply keeps_print | intros; apply keeps_mret]. }
  apply keeps_bind; [apply keeps_load_hash_store | intros doc].
  apply keeps_bind; [apply keeps_compute_file_hash | intros h].
  apply keeps_bind; [apply keeps_lift | intros present].
  apply keeps_if.
  { apply keeps_bind; [apply keeps_print | intros; apply keeps_mret]. }
  apply keeps_bind; [apply keeps_lift | intros stored].
  apply keeps_if;
    (apply keeps_bind; [apply keeps_print | intros; apply keeps_mret]).
Qed.

Lemma keeps_check_walk (doc : toplevel) (paths : list string) :
  forall ms ns, keeps_store (check_walk env doc paths ms ns).
Proof.
  induction paths as [| p rest IH]; intros ms ns; cbn [check_walk].
  - apply keeps_mret.
  - apply keeps_bind; [apply keeps_compute_file_hash | intros h].
    apply keeps_bind; [apply keeps_lift | intros present].
    apply keeps_if; [apply IH |].
    apply keeps_bind; [apply keeps_lift | intros stored].
    apply keeps_if; apply IH.
Qed.

Lemma keeps_check_directory (directory : string) :
  keeps_store (check_directory env directory).
Proof.
  unfold check_directory. apply keeps_if.
  { apply keeps_bind; [apply keeps_print | intros; apply keeps_mret]. }
  apply keeps_bind; [apply keeps_load_hash_store | intros doc].
  apply keeps_bind; [apply keeps_check_walk | intros [ms ns]].
  apply keeps_if.
  { apply keeps_bind; [apply keeps_print | intros; apply keeps_mret]. }
  apply keeps_bind.
  { apply keeps_if; [| apply keeps_mret].
    apply keeps_bind; [apply keeps_print | intros; apply keeps_print_all]. }
  intros _. apply keeps_bind; [| intros; apply keeps_mret].
  apply keeps_if; [| apply keeps_mret].
  apply keeps_bind; [apply keeps_print | intros; apply keeps_print_all].
Qed.

Lemma keeps_main_check (path : string) : keeps_store (main env (CmdCheck path)).
Proof.
  cbn [main]. apply keeps_if.
  { apply keeps_bind; [apply keeps_check_file | intros; apply keeps_mret]. }
  apply keeps_if; [| apply keeps_print].
  apply keeps_bind; [apply keeps_check_directory | intros; apply keeps_mret].
Qed.

End KeepsStore.

(* ===================================================================== *)
(** ** Properties of the commands *)
(* ===================================================================== *)

Lemma init_store_lookup (env : Env) (paths : list string) :
  forall (store : gmap string jvalue) (p : string),
    init_store env paths store !! p
    = match digest_of env p with
      | Some h => if bool_decide (p ∈ paths) then Some (JStr h) else store !! p
      | None => store !! p
      end.
Proof.
  induction paths as [| q rest IH]; intros store p.
  - unfold init_store. cbn [fold_left].
    destruct (digest_of env p); [| reflexivity].
    rewrite bool_decide_eq_false_2 by apply not_elem_of_nil. reflexivity.
  - unfold init_store in *. cbn [fold_left]. rewrite IH.
    unfold record_file.
    destruct (decide (p = q)) as [-> | Hne].
    + destruct (digest_of env q) as [h |]; [| reflexivity].
      rewrite lookup_insert_eq.
      rewrite (bool_decide_eq_true_2 (q ∈ q :: rest)) by (apply elem_of_cons; left; reflexivity).
      destruct (bool_decide (q ∈ rest)); reflexivity.
    + assert (Hmem : bool_decide (p ∈ q :: rest) = bool_decide (p ∈ rest)).
      { apply bool_decide_ext. rewrite elem_of_cons. tauto. }
      rewrite Hmem.
      destruct (digest_of env q) as [hq |]; [| reflexivity].
      rewrite lookup_insert_ne by congruence. reflexivity.
Qed.

(** [update_file] only answers [True] on its successful run. *)
Lemma update_file_true_inv (env : Env) (p : string) (w w1 : World) :
  update_file env p w = (Return true, w1) ->
  exists h d,
    isfile env p = true
    /\ digest_of env p = Some h
    /\ loaded_dict (store_file w) = Some d
    /\ store_write env = WriteOk.
Proof.
  intros Hrun.
  destruct (isfile env p) eqn:Hfile;
    [| rewrite update_file_not_file in Hrun by done; discriminate].
  destruct (digest_of env p) as [h |] eqn:Hh;
    [| rewrite update_file_unreadable in Hrun by done; discriminate].
  rewrite (update_file_readable env p w h Hfile Hh), say_nil in Hrun.
  destruct (loaded_doc (store_file w)) as [doc |] eqn:Hdoc.
  - erewrite bind_return in Hrun by (apply load_hash_store_ok; exact Hdoc).
    destruct doc as [d | | | | |];
      try (erewrite bind_raise in Hrun by reflexivity; discriminate).
    cbn [setitem lift] in Hrun. erewrite bind_return in Hrun by reflexivity.
    destruct (store_write env) eqn:Hw.
    + exists h, d. unfold loaded_dict. rewrite Hdoc. auto.
    + erewrite bind_return in Hrun
        by (apply save_hash_store_open_fails; exact Hw).
      discriminate.
    + erewrite bind_return in Hrun
        by (apply save_hash_store_write_fails; exact Hw).
      discriminate.
  - destruct (loaded_doc_none _ Hdoc) as [e He].
    erewrite bind_raise in Hrun by (apply load_hash_store_fails; exact He).
    discriminate.
Qed.

Lemma py_eq_same (h : string) : py_eq (Some h) (JStr h) = true.
Proof. simpl. apply String.eqb_refl. Qed.

(** C1, as amended.  Round trip: whenever [update_file f] answers [True],
    a [check_file f] that follows at once, with [f] still a regular file
    that reads as the same bytes, prints "Status: Unmodified" and answers
    [True]. *)
Theorem update_then_check_unmodified
    (env env' : Env) (f : string) (w w1 : World) :
  update_file env f w = (Return true, w1) ->
  isfile env' f = true ->
  open_rb env' f = open_rb env f ->
  check_file env' f w1
  = (Return true, say ["Status: Unmodified"] (opened ["r"] w1)).
Proof.
  intros Hupd Hfile' Hsame.
  destruct (update_file_true_inv env f w w1 Hupd) as (h & d & Hfile & Hh & Hd & Hw).
  rewrite (update_file_ok env f w h d Hfile Hh Hd Hw) in Hupd.
  injection Hupd as <-.
  assert (Hh' : digest_of env' f = Some h).
  { unfold digest_of in *. rewrite Hsame. exact Hh. }
  assert (Hrep : hash_report env' f = []).
  { unfold hash_report, digest_of in *. destruct (open_rb env' f); [done | discriminate]. }
  erewrite check_file_spec; [| exact Hfile' | reflexivity].
  unfold classify. rewrite lookup_insert_eq, Hh', py_eq_same, Hrep.
  reflexivity.
Qed.

Lemma update_then_check_unmodified_witness :
  update_file demo_env "a.log" fresh_world
  = (Return true, (update_file demo_env "a.log" fresh_world).2)
  /\ isfile demo_env "a.log" = true
  /\ (check_file demo_env "a.log" (update_file demo_env "a.log" fresh_world).2).1
     = Return true.
Proof.
  assert (H1 : update_file demo_env "a.log" fresh_world
               = (Return true, (update_file demo_env "a.log" fresh_world).2))
    by (vm_compute; reflexivity).
  split; [exact H1 |]. split; [reflexivity |].
  rewrite (update_then_check_unmodified demo_env demo_env "a.log" fresh_world
             _ H1 eq_refl eq_refl).
  reflexivity.
Defined.

(** C1, as first stated, fails on a regular file that cannot be read:
    [update_file] answers [False] without recording anything, and the
    [check_file] that follows reports a new file. *)
Lemma round_trip_fails_on_unreadable_file :
  isfile demo_env "D/z.log" = true
  /\ update_file demo_env "D/z.log" fresh_world
     = (Return false,
        mkWorld Missing
          ["Error reading file D/z.log: [Errno 13] Permission denied"] [])
  /\ check_file demo_env "D/z.log" (update_file demo_env "D/z.log" fresh_world).2
     = (Return false,
        mkWorld Missing
          ["Error reading file D/z.log: [Errno 13] Permission denied";
           "Error reading file D/z.log: [Errno 13] Permission denied";
           "Status: New file (not in hash store)"]
          ["r"]).
Proof. vm_compute. auto. Qed.

(** C2.  On a regular file, with a store that loads as a mapping,
    [check_file] reaches exactly one verdict: new when the path is not a
    key of the mapping (prints "Status: New file (not in hash store)",
    answers [False]); unmodified when the computed digest equals the stored
    value (prints "Status: Unmodified", answers [True]); modified when a
    value is stored and differs (prints "Status: Modified (Hash mismatch)",
    answers [False]). *)
Theorem check_file_classifies
    (env : Env) (p : string) (w : World) (d : gmap string jvalue) :
  isfile env p = true ->
  loaded_dict (store_file w) = Some d ->
  exists v : verdict,
    check_file env p w
    = (Return (verdict_ok v),
       say (hash_report env p ++ [verdict_line v]) (opened ["r"] w))
    /\ (v = New <-> d !! p = None)
    /\ (v = Unmodified <->
        exists stored, d !! p = Some stored
                       /\ py_eq (digest_of env p) stored = true)
    /\ (v = Modified <->
        exists stored, d !! p = Some stored
                       /\ py_eq (digest_of env p) stored = false)
    /\ (verdict_ok v = true <-> v = Unmodified).
Proof.
  intros Hfile Hd. exists (classify d p (digest_of env p)).
  split; [apply check_file_spec; assumption |].
  unfold classify.
  destruct (d !! p) as [stored |] eqn:E.
  - destruct (py_eq (digest_of env p) stored) eqn:Heq; simpl;
      repeat split; try discriminate; try done; eauto;
      intros (s & Hs & Hp); simplify_eq; congruence.
  - simpl. repeat split; try discriminate; try done;
      intros (s & Hs & Hp); discriminate.
Qed.

Lemma check_file_classifies_witness :
  isfile demo_env "D/z.log" = true
  /\ loaded_dict (store_file tracked_world)
     = Some {[ "D/z.log" :=
         JStr "e3b0c44298fc1c149afbf4c8996fb92427ae41e4649b934ca495991b7852b855" ]}
  /\ exists v, (check_file demo_env "D/z.log" tracked_world).1
               = Return (verdict_ok v).
Proof.
  split; [reflexivity |]. split; [reflexivity |].
  destruct (check_file_classifies demo_env "D/z.log" tracked_world _
              eq_refl eq_refl) as (v & Hrun & _).
  exists v. rewrite Hrun. reflexivity.
Defined.

Lemma init_store_fresh_lookup (env : Env) (paths : list string)
    (p : string) (v : jvalue) :
  init_store env paths ∅ !! p = Some v
  <-> p ∈ paths
      /\ exists content,
           open_rb env p = ReadOk content
           /\ v = JStr (Sha256.hexdigest content).
Proof.
  rewrite init_store_lookup, lookup_empty. unfold digest_of.
  destruct (open_rb env p) as [content | e].
  - destruct (bool_decide (p ∈ paths)) eqn:Hmem.
    + apply bool_decide_eq_true in Hmem. split.
      * intros [= <-]. eauto.
      * intros (_ & c & [= <-] & ->). reflexivity.
    + apply bool_decide_eq_false in Hmem. split; [discriminate | tauto].
  - destruct (bool_decide (p ∈ paths)); split; try discriminate;
      intros (_ & c & Hc & _); discriminate.
Qed.

(** C3.  When [initialize] runs on a directory and its save completes, the
    store file holds a mapping built from nothing: a path is a key exactly
    when the walk visited it and it could be hashed, the value being its
    digest, whatever the store held before.  So a regular file [a] that the
    walk did not visit is afterwards reported by [check_file] as a new
    file. *)
Theorem initialize_rebuilds_store (env : Env) (directory : string) (w : World) :
  isdir env directory = true ->
  store_write env = WriteOk ->
  exists (w1 : World) (d1 : gmap string jvalue),
    initialize env directory w = (Return true, w1)
    /\ store_file w1 = Holds (TDict d1)
    /\ (forall p v,
          d1 !! p = Some v
          <-> p ∈ walk_paths env directory
              /\ exists content,
                   open_rb env p = ReadOk content
                   /\ v = JStr (Sha256.hexdigest content))
    /\ (forall (env' : Env) (a : string),
          a ∉ walk_paths env directory ->
          isfile env' a = true ->
          check_file env' a w1
          = (Return false,
             say (hash_report env' a ++ ["Status: New file (not in hash store)"])
                 (opened ["r"] w1))).
Proof.
  intros Hdir Hw.
  eexists _, (init_store env (walk_paths env directory) ∅).
  split; [apply initialize_ok; assumption |].
  split; [reflexivity |].
  split; [intros p v; apply init_store_fresh_lookup |].
  intros env' a Hnot Hfile.
  erewrite check_file_spec; [| exact Hfile | reflexivity].
  unfold classify.
  destruct (init_store env (walk_paths env directory) ∅ !! a) as [v |] eqn:E.
  - apply init_store_fresh_lookup in E. tauto.
  - reflexivity.
Qed.

Lemma initialize_rebuilds_store_witness :
  isdir demo_env "D" = true
  /\ store_write demo_env = WriteOk
  /\ ("a.log" ∉ walk_paths demo_env "D")
  /\ isfile demo_env "a.log" = true
  /\ exists w1,
       initialize demo_env "D" (update_file demo_env "a.log" fresh_world).2
       = (Return true, w1)
       /\ (check_file demo_env "a.log" w1).1 = Return false.
Proof.
  assert (Hnot : "a.log" ∉ walk_paths demo_env "D").
  { vm_compute. intros H. repeat (apply elem_of_cons in H as [H | H]; [discriminate |]).
    apply not_elem_of_nil in H. exact H. }
  split; [reflexivity |]. split; [reflexivity |].
  split; [exact Hnot |]. split; [reflexivity |].
  destruct (initialize_rebuilds_store demo_env "D"
              (update_file demo_env "a.log" fresh_world).2 eq_refl eq_refl)
    as (w1 & d1 & Hrun & _ & _ & Hnew).
  exists w1. split; [exact Hrun |].
  rewrite (Hnew demo_env "a.log" Hnot eq_refl). reflexivity.
Defined.

(** [initialize] does skip what it cannot hash. *)
Lemma initialize_skips_unreadable (env : Env) (paths : list string) (p : string) :
  digest_of env p = None -> init_store env paths ∅ !! p = None.
Proof. intros H. rewrite init_store_lookup, H. apply lookup_empty. Qed.

(** [check_directory] does not: a path whose hash could not be computed
    still lands in one of the two lists. *)
Lemma check_directory_keeps_unreadable
    (env : Env) (d : gmap string jvalue) (paths : list string) (p : string) :
  p ∈ paths ->
  digest_of env p = None ->
  (d !! p = None -> p ∈ new_paths env d paths)
  /\ (forall h, d !! p = Some (JStr h) -> p ∈ modified_paths env d paths).
Proof.
  intros Hin Hnone. unfold new_paths, modified_paths. split.
  - intros Hd. apply list_elem_of_In, filter_In. split.
    + apply list_elem_of_In, Hin.
    + unfold classify. rewrite Hd. reflexivity.
  - intros h Hd. apply list_elem_of_In, filter_In. split.
    + apply list_elem_of_In, Hin.
    + unfold classify. rewrite Hd, Hnone. reflexivity.
Qed.

(** C4, on the code.  [D/z.log] cannot be read.  [initialize] reports it
    and leaves it out of the store; [check_directory] reports it and then
    lists it all the same, under the new files when it is not tracked and
    under the modified files when it is. *)
Theorem check_directory_lists_unreadable_file :
  digest_of demo_env "D/z.log" = None
  /\ (exists w1 d1,
        initialize demo_env "D" fresh_world = (Return true, w1)
        /\ store_file w1 = Holds (TDict d1)
        /\ d1 !! "D/z.log" = None
        /\ check_directory demo_env "D" w1
           = (Return false,
              say ["Error reading file D/z.log: [Errno 13] Permission denied";
                   new_header; "- D/z.log"]
                  (opened ["r"] w1)))
  /\ stdout (check_directory demo_env "D" tracked_world).2
     = ["Error reading file D/z.log: [Errno 13] Permission denied";
        modified_header; "- D/z.log";
        new_header; "- D/x.log"; "- D/y.log"].
Proof.
  split; [reflexivity |]. split.
  - eexists _, _. split; [vm_compute; reflexivity |].
    split; [reflexivity |].
    split; vm_compute; reflexivity.
  - vm_compute. reflexivity.
Qed.

(* --------------------------------------------------------------------- *)
(** *** Loading the store *)
(* --------------------------------------------------------------------- *)



Section Returns.

Variable env : Env.
Variable w : World.
Variable d : gmap string jvalue.
Hypothesis Hd : loaded_dict (store_file w) = Some d.




End Returns.







(* --------------------------------------------------------------------- *)
(** *** Checking a directory *)
(* --------------------------------------------------------------------- *)

Lemma is_nil_true {A} (l : list A) : is_nil l = true <-> l = [].
Proof. destruct l; simpl; split; congruence. Qed.

(** C6.  On a directory, with a store that loads as a mapping,
    [check_directory] opens the store file once, for reading; collects the
    walked paths that are not keys of the mapping as new and those whose
    stored value differs from the computed digest as modified; prints the
    modified files before the new files; and answers [True] exactly when
    both lists are empty. *)
Theorem check_directory_reports
    (env : Env) (directory : string) (w : World) (d : gmap string jvalue) :
  isdir env directory = true ->
  loaded_dict (store_file w) = Some d ->
  exists (ok : bool) (modified_files new_files : list string),
    check_directory env directory w
    = (Return ok,
       say (hash_reports env (walk_paths env directory)
            ++ (if ok then ["All files unmodified."]
                else listing modified_header modified_files
                     ++ listing new_header new_files))
           (opened ["r"] w))
    /\ (forall p, p ∈ new_files
                  <-> p ∈ walk_paths env directory /\ d !! p = None)
    /\ (forall p, p ∈ modified_files
                  <-> p ∈ walk_paths env directory
                      /\ exists stored,
                           d !! p = Some stored
                           /\ py_eq (digest_of env p) stored = false)
    /\ (ok = true <-> modified_files = [] /\ new_files = []).
Proof.
  intros Hdir Hd.
  exists (is_nil (modified_paths env d (walk_paths env directory))
          && is_nil (new_paths env d (walk_paths env directory))),
         (modified_paths env d (walk_paths env directory)),
         (new_paths env d (walk_paths env directory)).
  split; [| split; [| split]].
  - rewrite (check_directory_spec env directory w d Hdir Hd).
    unfold directory_report. reflexivity.
  - intros p. unfold new_paths.
    rewrite list_elem_of_In, filter_In, <- list_elem_of_In.
    unfold classify. destruct (d !! p) as [stored |].
    + destruct (py_eq (digest_of env p) stored); simpl;
        split; intros [? ?]; discriminate.
    + simpl. tauto.
  - intros p. unfold modified_paths.
    rewrite list_elem_of_In, filter_In, <- list_elem_of_In.
    unfold classify. destruct (d !! p) as [stored |].
    + destruct (py_eq (digest_of env p) stored) eqn:Heq; simpl; split.
      * intros [? ?]; discriminate.
      * intros (_ & s & [= <-] & Hs). congruence.
      * intros [Hin _]. eauto.
      * intros [Hin _]. auto.
    + simpl. split; [intros [? ?]; discriminate |].
      intros (_ & s & Hs & _). discriminate.
  - rewrite andb_true_iff, !is_nil_true. reflexivity.
Qed.

Lemma check_directory_reports_witness :
  isdir demo_env_appended "D" = true
  /\ loaded_dict (store_file (initialize demo_env "D" fresh_world).2)
     = Some (init_store demo_env (walk_paths demo_env "D") ∅)
  /\ exists (ok : bool) (modified_files new_files : list string),
       (check_directory demo_env_appended "D"
          (initialize demo_env "D" fresh_world).2).1 = Return ok
       /\ ("D/x.log" ∈ modified_files)
       /\ ("D/z.log" ∈ new_files)
       /\ ok = false.
Proof.
  assert (Hd : loaded_dict (store_file (initialize demo_env "D" fresh_world).2)
               = Some (init_store demo_env (walk_paths demo_env "D") ∅))
    by (vm_compute; reflexivity).
  split; [reflexivity |]. split; [exact Hd |].
  destruct (check_directory_reports demo_env_appended "D" _ _ eq_refl Hd)
    as (ok & ms & ns & Hrun & Hnew & Hmod & Hok).
  exists ok, ms, ns. split; [rewrite Hrun; reflexivity |].
  assert (Hx : "D/x.log" ∈ ms).
  { apply Hmod. split.
    - vm_compute. apply elem_of_cons. left. reflexivity.
    - exists (JStr (Sha256.hexdigest (list_byte_of_string "AAA"))).
      split; vm_compute; reflexivity. }
  assert (Hz : "D/z.log" ∈ ns).
  { apply Hnew. split.
    - vm_compute. do 2 (apply elem_of_cons; right).
      apply elem_of_cons. left. reflexivity.
    - vm_compute. reflexivity. }
  split; [exact Hx |]. split; [exact Hz |].
  destruct ok; [| reflexivity].
  destruct Hok as [Hok _]. destruct (Hok eq_refl) as [-> _].
  apply not_elem_of_nil in Hx. destruct Hx.
Defined.

(** The scenario of the specification: [D/x.log] holds "AAA" and
    [D/y.log] holds "BBB" at [init]; then "C" is appended to [D/x.log]. *)
Example scenario_append_then_check :
  stdout (check_directory demo_env_appended "D"
            (initialize demo_env "D" fresh_world).2).2
  = ["Error reading file D/z.log: [Errno 13] Permission denied";
     "Hashes stored successfully for 2 files.";
     "Error reading file D/z.log: [Errno 13] Permission denied";
     modified_header; "- D/x.log";
     new_header; "- D/z.log"].
Proof. vm_compute. reflexivity. Qed.

(* --------------------------------------------------------------------- *)
(** *** Updating one file *)
(* --------------------------------------------------------------------- *)

(** C7.  [update_file] wants a regular file: on anything else it prints an
    error and leaves the store file unopened.  On a regular file that can
    be read, with a store that loads as a mapping and a save that
    completes, it persists that mapping with the entry for exactly this
    path set to the fresh digest; the entry of every other path is the one
    loaded. *)
Theorem update_file_sets_one_entry (env : Env) (p : string) (w : World) :
  (isfile env p = false ->
   update_file env p w
   = (Return false, say ["Error: " +:+ p +:+ " is not a valid file"] w))
  /\ forall (content : list byte) (d : gmap string jvalue),
       isfile env p = true ->
       open_rb env p = ReadOk content ->
       loaded_dict (store_file w) = Some d ->
       store_write env = WriteOk ->
       exists d' : gmap string jvalue,
         update_file env p w
         = (Return true,
            say ["Hash updated successfully."]
                (with_store (Holds (TDict d')) (opened ["r"; "w"] w)))
         /\ d' !! p = Some (JStr (Sha256.hexdigest content))
         /\ forall q, q <> p -> d' !! q = d !! q.
Proof.
  split; [apply update_file_not_file |].
  intros content d Hfile Hread Hd Hw.
  exists (<[p := JStr (Sha256.hexdigest content)]> d).
  split; [| split].
  - apply update_file_ok; try assumption.
    unfold digest_of. rewrite Hread. reflexivity.
  - apply lookup_insert_eq.
  - intros q Hne. apply lookup_insert_ne. congruence.
Qed.

Lemma update_file_sets_one_entry_witness :
  isfile demo_env "a.log" = true
  /\ open_rb demo_env "a.log" = ReadOk (list_byte_of_string "hello")
  /\ loaded_dict (store_file tracked_world)
     = Some {[ "D/z.log" :=
         JStr "e3b0c44298fc1c149afbf4c8996fb92427ae41e4649b934ca495991b7852b855" ]}
  /\ store_write demo_env = WriteOk
  /\ exists d' : gmap string jvalue,
       store_file (update_file demo_env "a.log" tracked_world).2
       = Holds (TDict d')
       /\ d' !! "a.log"
          = Some (JStr
              "2cf24dba5fb0a30e26e83b2ac5b9e29e1b161e5c1fa7425e73043362938b9824")
       /\ d' !! "D/z.log"
          = Some (JStr
              "e3b0c44298fc1c149afbf4c8996fb92427ae41e4649b934ca495991b7852b855").
Proof.
  split; [reflexivity |]. split; [reflexivity |].
  split; [reflexivity |]. split; [reflexivity |].
  destruct (update_file_sets_one_entry demo_env "a.log" tracked_world)
    as [_ Hset].
  destruct (Hset _ _ eq_refl eq_refl eq_refl eq_refl) as (d' & Hrun & Hp & Hq).
  exists d'. split; [rewrite Hrun; reflexivity |].
  split.
  - rewrite Hp. vm_compute. reflexivity.
  - rewrite Hq by discriminate. vm_compute. reflexivity.
Defined.

(** C10.  On a regular file that cannot be read, [update_file] prints the
    read error and answers [False]; the store file was neither opened nor
    changed. *)
Theorem update_file_read_error_leaves_store
    (env : Env) (p : string) (w : World) (e : string) :
  isfile env p = true ->
  open_rb env p = ReadErr e ->
  update_file env p w
  = (Return false, say ["Error reading file " +:+ p +:+ ": " +:+ e] w)
  /\ store_file (update_file env p w).2 = store_file w
  /\ store_opens (update_file env p w).2 = store_opens w.
Proof.
  intros Hfile Hread.
  assert (Hrun : update_file env p w
                 = (Return false,
                    say ["Error reading file " +:+ p +:+ ": " +:+ e] w)).
  { rewrite update_file_unreadable.
    - unfold hash_report. rewrite Hread. reflexivity.
    - exact Hfile.
    - unfold digest_of. rewrite Hread. reflexivity. }
  rewrite Hrun. auto.
Qed.

Lemma update_file_read_error_leaves_store_witness :
  isfile demo_env "D/z.log" = true
  /\ open_rb demo_env "D/z.log" = ReadErr "[Errno 13] Permission denied"
  /\ (update_file demo_env "D/z.log" locked_world).1 = Return false
  /\ store_opens (update_file demo_env "D/z.log" locked_world).2 = [].
Proof.
  split; [reflexivity |]. split; [reflexivity |].
  destruct (update_file_read_error_leaves_store demo_env "D/z.log" locked_world
              "[Errno 13] Permission denied" eq_refl eq_refl) as (Hrun & _ & Hops).
  split; [rewrite Hrun; reflexivity | exact Hops].
Defined.

(* --------------------------------------------------------------------- *)
(** *** The store file across commands *)
(* --------------------------------------------------------------------- *)

(** C8.  [check_file], [check_directory] and the [check] command leave the
    store file as it was, on every path and in every world, also when they
    raise. *)
Theorem check_never_mutates_store (env : Env) (path : string) (w : World) :
  store_file (check_file env path w).2 = store_file w
  /\ store_file (check_directory env path w).2 = store_file w
  /\ store_file (main env (CmdCheck path) w).2 = store_file w.
Proof.
  split; [apply keeps_check_file |].
  split; [apply keeps_check_directory | apply keeps_main_check].
Qed.

Lemma bind_unit_store {A} (m : M A) (w : World) :
  store_file ((_ ← m; mret tt) w).2 = store_file (m w).2.
Proof. unfold mbind, M_bind. destruct (m w) as [[a | e |] w']; reflexivity. Qed.

Lemma main_store (env : Env) (args : command) (w : World) :
  store_file (main env args w).2
  = match args with
    | CmdInit directory => store_file (initialize env directory w).2
    | CmdCheck _ => store_file w
    | CmdUpdate file => store_file (update_file env file w).2
    end.
Proof.
  destruct args as [directory | path | file].
  - apply bind_unit_store.
  - apply keeps_main_check.
  - apply bind_unit_store.
Qed.

Lemma loaded_dict_digests (s : store_state) (d : gmap string jvalue) :
  digests_only s -> loaded_dict s = Some d ->
  map_Forall (fun _ v => is_digest_value v = true) d.
Proof.
  destruct s as [| e | | e | [d0 | | | | |]]; simpl; intros Hs [= <-];
    (exact Hs || apply map_Forall_empty).
Qed.

(** C9.  After any command, every entry of the persisted mapping is either
    an entry of the mapping loaded before the command, or the path of a
    file together with the SHA-256 hex digest of that file's whole content,
    which is 64 lowercase hexadecimal characters.  Hence, if all stored
    values were such digests before the command, they all are after it. *)
Theorem stored_values_are_sha256_digests
    (env : Env) (args : command) (w : World) :
  let s := store_file w in
  let s' := store_file (main env args w).2 in
  (forall d' k v,
     s' = Holds (TDict d') -> d' !! k = Some v ->
     (exists content,
        open_rb env k = ReadOk content
        /\ v = JStr (Sha256.hexdigest content)
        /\ Sha256.is_hex_digest (Sha256.hexdigest content) = true)
     \/ (exists d, loaded_dict s = Some d /\ d !! k = Some v))
  /\ (digests_only s -> digests_only s').
Proof.
  cbn zeta. rewrite main_store.
  assert (Hsame : forall s0 : store_state,
    (forall d' k v,
       s0 = Holds (TDict d') -> d' !! k = Some v ->
       (exists content,
          open_rb env k = ReadOk content
          /\ v = JStr (Sha256.hexdigest content)
          /\ Sha256.is_hex_digest (Sha256.hexdigest content) = true)
       \/ (exists d, loaded_dict s0 = Some d /\ d !! k = Some v))).
  { intros s0 d' k v -> Hk. right. exists d'. auto. }
  assert (Hinit : forall paths,
    (forall k v,
       init_store env paths ∅ !! k = Some v ->
       exists content,
         open_rb env k = ReadOk content
         /\ v = JStr (Sha256.hexdigest content)
         /\ Sha256.is_hex_digest (Sha256.hexdigest content) = true)).
  { intros paths k v Hk. apply init_store_fresh_lookup in Hk.
    destruct Hk as (_ & content & Hread & ->).
    exists content. auto using hexdigest_is_hex_digest. }
  destruct args as [directory | path | file].
  - destruct (initialize_store_cases env directory w) as [-> | [-> | ->]].
    + split; [apply Hsame | auto].
    + split; [discriminate | constructor].
    + split.
      * intros d' k v [= <-] Hk. left. eapply Hinit, Hk.
      * intros _ k v Hk. apply Hinit in Hk as (content & _ & -> & Hhex).
        exact Hhex.
  - split; [apply Hsame | auto].
  - destruct (update_file_store_cases env file w)
      as [-> | [-> | (content & d & Hread & Hd & ->)]].
    + split; [apply Hsame | auto].
    + split; [discriminate | constructor].
    + split.
      * intros d' k v [= <-] Hk.
        destruct (decide (k = file)) as [-> | Hne].
        -- rewrite lookup_insert_eq in Hk. injection Hk as <-.
           left. exists content. auto using hexdigest_is_hex_digest.
        -- rewrite lookup_insert_ne in Hk by congruence.
           right. exists d. auto.
      * intros Hs. simpl. apply map_Forall_insert_2.
        -- apply hexdigest_is_hex_digest.
        -- eapply loaded_dict_digests; eassumption.
Qed.

Lemma stored_values_are_sha256_digests_witness :
  digests_only (store_file tracked_world)
  /\ digests_only
       (store_file (main demo_env (CmdUpdate "a.log") tracked_world).2).
Proof.
  assert (H0 : digests_only (store_file tracked_world)).
  { simpl. apply map_Forall_singleton. vm_compute. reflexivity. }
  split; [exact H0 |].
  apply (stored_values_are_sha256_digests demo_env (CmdUpdate "a.log")
           tracked_world).
  exact H0.
Defined.

(* ===================================================================== *)
(** ** Further properties of the script *)
(* ===================================================================== *)

(* --------------------------------------------------------------------- *)
(** *** Hashing and the store file *)
(* --------------------------------------------------------------------- *)

(** X1.  On a file that can be read, [compute_file_hash] returns the hex
    digest of the complete content, of whatever length, prints nothing and
    changes nothing: the loop that reads 65536 bytes at a time feeds every
    byte to the hash object, whatever was fed before, and stops. *)
Theorem compute_file_hash_hashes_whole_file
    (env : Env) (p : string) (w : World) (content : list byte) :
  open_rb env p = ReadOk content ->
  compute_file_hash env p w = (Return (Some (Sha256.hexdigest content)), w)
  /\ forall sha : list byte,
       read_loop (S (List.length content)) sha content
       = Some (sha ++ content)%list.
Proof.
  intros Hread. split.
  - rewrite compute_file_hash_spec. unfold digest_of, hash_report.
    rewrite Hread, say_nil. reflexivity.
  - intros sha. apply read_loop_feeds_all. lia.
Qed.

Lemma compute_file_hash_hashes_whole_file_witness :
  open_rb demo_env "a.log" = ReadOk (list_byte_of_string "hello")
  /\ compute_file_hash demo_env "a.log" fresh_world
     = (Return (Some
          "2cf24dba5fb0a30e26e83b2ac5b9e29e1b161e5c1fa7425e73043362938b9824"),
        fresh_world).
Proof.
  split; [reflexivity |].
  destruct (compute_file_hash_hashes_whole_file demo_env "a.log" fresh_world
              _ eq_refl) as [Hrun _].
  rewrite Hrun. vm_compute. reflexivity.
Defined.

(* --------------------------------------------------------------------- *)
(** *** [initialize] *)
(* --------------------------------------------------------------------- *)

Lemma hashed_count_cons (env : Env) (p : string) (rest : list string) :
  hashed_count env (p :: rest)
  = ((match digest_of env p with Some _ => 1 | None => 0 end)
     + hashed_count env rest)%nat.
Proof.
  unfold hashed_count. cbn [List.filter].
  destruct (digest_of env p) as [h |].
  - rewrite bool_decide_eq_true_2 by eauto. reflexivity.
  - rewrite bool_decide_eq_false_2 by (intros [? ?]; discriminate). reflexivity.
Qed.

Lemma init_store_size (env : Env) (paths : list string) :
  forall store : gmap string jvalue,
    NoDup paths ->
    (forall p, p ∈ paths -> store !! p = None) ->
    size (init_store env paths store) = (size store + hashed_count env paths)%nat.
Proof.
  induction paths as [| q rest IH]; intros store Hnd Hfresh.
  - unfold init_store, hashed_count. simpl. lia.
  - apply NoDup_cons in Hnd as [Hq Hnd].
    unfold init_store in *. cbn [fold_left].
    rewrite hashed_count_cons, IH; [| exact Hnd |].
    + unfold record_file. destruct (digest_of env q) as [h |].
      * rewrite map_size_insert_None; [lia |].
        apply Hfresh, elem_of_cons. left. reflexivity.
      * lia.
    + intros p Hp. unfold record_file.
      destruct (digest_of env q) as [h |].
      * rewrite lookup_insert_ne by (intros ->; contradiction).
        apply Hfresh, elem_of_cons. right. exact Hp.
      * apply Hfresh, elem_of_cons. right. exact Hp.
Qed.

(** X3.  When the walk yields no path twice, the number that a successful
    [initialize] prints is the number of entries of the mapping it
    stored. *)
Theorem initialize_count_is_store_size
    (env : Env) (directory : string) (w : World) :
  isdir env directory = true ->
  store_write env = WriteOk ->
  NoDup (walk_paths env directory) ->
  exists (w1 : World) (d1 : gmap string jvalue),
    initialize env directory w = (Return true, w1)
    /\ store_file w1 = Holds (TDict d1)
    /\ last (stdout w1)
       = Some ("Hashes stored successfully for "
               +:+ pretty (size d1) +:+ " files.").
Proof.
  intros Hdir Hw Hnd.
  eexists _, (init_store env (walk_paths env directory) ∅).
  split; [apply initialize_ok; assumption |].
  split; [reflexivity |].
  cbn [stdout say]. rewrite app_assoc, last_snoc.
  rewrite init_store_size, map_size_empty; [reflexivity | exact Hnd |].
  intros p _. apply lookup_empty.
Qed.

Lemma initialize_count_is_store_size_witness :
  isdir demo_env "D" = true
  /\ store_write demo_env = WriteOk
  /\ NoDup (walk_paths demo_env "D")
  /\ last (stdout (initialize demo_env "D" fresh_world).2)
     = Some "Hashes stored successfully for 2 files.".
Proof.
  assert (Hnd : NoDup (walk_paths demo_env "D")).
  { apply (bool_decide_unpack _). vm_compute. exact I. }
  split; [reflexivity |]. split; [reflexivity |]. split; [exact Hnd |].
  destruct (initialize_count_is_store_size demo_env "D" fresh_world
              eq_refl eq_refl Hnd) as (w1 & d1 & Hrun & Hd1 & Hlast).
  rewrite Hrun in *. cbn [snd] in *.
  rewrite Hlast. f_equal. f_equal.
  assert (Hsz : size d1 = 2%nat).
  { vm_compute in Hrun. injection Hrun as <-. simpl in Hd1.
    injection Hd1 as <-. vm_compute. reflexivity. }
  rewrite Hsz. reflexivity.
Defined.

Lemma filter_none_in {A} (f : A -> bool) (l : list A) :
  (forall a, In a l -> f a = false) -> List.filter f l = [].
Proof.
  induction l as [| a l IH]; intros H; [reflexivity |].
  cbn [List.filter]. rewrite (H a) by (left; reflexivity).
  apply IH. intros b Hb. apply H. right. exact Hb.
Qed.






(** [init] on a home directory at first run creates the store file inside
    the directory it walked; the [check] that follows finds that file, which
    the walk of [init] could not list, and reports it as new. *)
Example init_home_then_check_home :
  check_directory home_env_after "/home/u"
    (initialize home_env "/home/u" fresh_world).2
  = (Return false,
     mkWorld
       (Holds (TDict
          {[ "/home/u/notes.txt" :=
               JStr (Sha256.hexdigest (list_byte_of_string "todo")) ]}))
       ["Hashes stored successfully for 1 files.";
        new_header; "- /home/u/.log_integrity_store.json"]
       ["w"; "r"]).
Proof. vm_compute. reflexivity. Qed.

(** X5.  Once [update_file f] answered [True], a [check_file f] on a
    regular file whose digest is now another one, or which can no longer be
    read, prints "Status: Modified (Hash mismatch)" and answers [False]. *)
Theorem update_then_change_detected
    (env env' : Env) (f : string) (w w1 : World) :
  update_file env f w = (Return true, w1) ->
  isfile env' f = true ->
  digest_of env' f <> digest_of env f ->
  check_file env' f w1
  = (Return false,
     say (hash_report env' f ++ ["Status: Modified (Hash mismatch)"])
         (opened ["r"] w1)).
Proof.
  intros Hupd Hfile' Hdiff.
  destruct (update_file_true_inv env f w w1 Hupd)
    as (h & d & Hfile & Hh & Hd & Hw).
  rewrite (update_file_ok env f w h d Hfile Hh Hd Hw) in Hupd.
  injection Hupd as <-.
  erewrite check_file_spec; [| exact Hfile' | reflexivity].
  unfold classify. rewrite lookup_insert_eq.
  assert (Hne : py_eq (digest_of env' f) (JStr h) = false).
  { destruct (digest_of env' f) as [h' |]; [| reflexivity].
    simpl. apply String.eqb_neq. congruence. }
  rewrite Hne. reflexivity.
Qed.

Lemma update_then_change_detected_witness :
  update_file demo_env "D/x.log" fresh_world
  = (Return true, (update_file demo_env "D/x.log" fresh_world).2)
  /\ isfile demo_env_appended "D/x.log" = true
  /\ digest_of demo_env_appended "D/x.log" <> digest_of demo_env "D/x.log"
  /\ (check_file demo_env_appended "D/x.log"
        (update_file demo_env "D/x.log" fresh_world).2).1 = Return false.
Proof.
  assert (H1 : update_file demo_env "D/x.log" fresh_world
               = (Return true, (update_file demo_env "D/x.log" fresh_world).2))
    by (vm_compute; reflexivity).
  assert (H2 : digest_of demo_env_appended "D/x.log"
               <> digest_of demo_env "D/x.log")
    by (vm_compute; discriminate).
  split; [exact H1 |]. split; [reflexivity |]. split; [exact H2 |].
  rewrite (update_then_change_detected demo_env demo_env_appended "D/x.log"
             fresh_world _ H1 eq_refl H2).
  reflexivity.
Defined.

Lemma init_store_nothing (env : Env) (paths : list string) :
  (forall p, p ∈ paths -> digest_of env p = None) ->
  init_store env paths ∅ = ∅ /\ hashed_count env paths = 0%nat.
Proof.
  intros Hnone. split.
  - apply map_eq. intros p. rewrite init_store_lookup, lookup_empty.
    destruct (digest_of env p) as [h |] eqn:E; [| reflexivity].
    destruct (bool_decide (p ∈ paths)) eqn:Hmem; [| reflexivity].
    apply bool_decide_eq_true in Hmem. rewrite (Hnone p Hmem) in E.
    discriminate.
  - unfold hashed_count. rewrite filter_none_in; [reflexivity |].
    intros p Hp. apply bool_decide_eq_false. intros [h Hh].
    rewrite (Hnone p) in Hh by (apply list_elem_of_In; exact Hp).
    discriminate.
Qed.

(** X6.  [initialize] on a directory where the walk finds nothing it can
    hash, an empty directory included, still saves and answers [True]: the
    store file then holds the empty mapping, whatever it tracked before,
    and the count printed is 0. *)
Theorem initialize_nothing_hashable_empties_store
    (env : Env) (directory : string) (w : World) :
  isdir env directory = true ->
  store_write env = WriteOk ->
  (forall p, p ∈ walk_paths env directory -> digest_of env p = None) ->
  initialize env directory w
  = (Return true,
     say (hash_reports env (walk_paths env directory)
          ++ ["Hashes stored successfully for 0 files."])
         (with_store (Holds (TDict ∅)) (opened ["w"] w))).
Proof.
  intros Hdir Hw Hnone.
  rewrite (initialize_ok env directory w Hdir Hw). cbn zeta.
  destruct (init_store_nothing env (walk_paths env directory) Hnone)
    as [-> ->].
  reflexivity.
Qed.

Lemma initialize_nothing_hashable_empties_store_witness :
  isdir barren_env "E" = true
  /\ store_write barren_env = WriteOk
  /\ (forall p, p ∈ walk_paths barren_env "E" -> digest_of barren_env p = None)
  /\ store_file (initialize barren_env "E" tracked_world).2 = Holds (TDict ∅)
  /\ stdout (initialize barren_env "E" tracked_world).2
     = ["Error reading file E/lock: [Errno 13] Permission denied";
        "Hashes stored successfully for 0 files."].
Proof.
  assert (Hnone : forall p, p ∈ walk_paths barren_env "E"
                            -> digest_of barren_env p = None).
  { intros p Hp. vm_compute in Hp.
    apply list_elem_of_singleton in Hp. subst p. reflexivity. }
  split; [reflexivity |]. split; [reflexivity |]. split; [exact Hnone |].
  rewrite (initialize_nothing_hashable_empties_store barren_env "E"
             tracked_world eq_refl eq_refl Hnone).
  split; [reflexivity | vm_compute; reflexivity].
Defined.


(** X8.  When the store file cannot be opened for writing, [update_file]
    and [initialize] print "Error saving hash store: ..." and answer
    [False]; no success line is printed and the store file keeps its
    content. *)
Theorem save_failure_is_reported (env : Env) (p : string) (w : World) (e : string) :
  store_write env = OpenFails e ->
  (forall content d,
     isfile env p = true ->
     open_rb env p = ReadOk content ->
     loaded_dict (store_file w) = Some d ->
     update_file env p w
     = (Return false,
        say ["Error saving hash store: " +:+ e] (opened ["r"; "w"] w)))
  /\ (isdir env p = true ->
      initialize env p w
      = (Return false,
         say (hash_reports env (walk_paths env p)
              ++ ["Error saving hash store: " +:+ e])
             (opened ["w"] w))).
Proof.
  intros Hw. split.
  - intros content d Hfile Hread Hd.
    assert (Hh : digest_of env p = Some (Sha256.hexdigest content)).
    { unfold digest_of. rewrite Hread. reflexivity. }
    rewrite (update_file_readable env p w _ Hfile Hh), say_nil.
    apply loaded_dict_doc in Hd. step_with load_hash_store_ok.
    cbn [setitem lift]. erewrite bind_return by reflexivity.
    erewrite bind_return by (apply save_hash_store_open_fails; exact Hw).
    destruct w. unfold say, opened. simpl. rewrite <- app_assoc. reflexivity.
  - intros Hdir. rewrite (initialize_dir env p w Hdir).
    erewrite bind_return by (apply save_hash_store_open_fails; exact Hw).
    destruct w. unfold say, opened. simpl. rewrite <- app_assoc. reflexivity.
Qed.

Lemma save_failure_is_reported_witness :
  store_write readonly_env = OpenFails "[Errno 13] Permission denied"
  /\ isfile readonly_env "a.log" = true
  /\ isdir readonly_env "D" = true
  /\ update_file readonly_env "a.log" tracked_world
     = (Return false,
        mkWorld (store_file tracked_world)
          ["Error saving hash store: [Errno 13] Permission denied"]
          ["r"; "w"])
  /\ store_file (initialize readonly_env "D" tracked_world).2
     = store_file tracked_world.
Proof.
  split; [reflexivity |]. split; [reflexivity |]. split; [reflexivity |].
  destruct (save_failure_is_reported readonly_env "a.log" tracked_world _ eq_refl)
    as [Hupd _].
  destruct (save_failure_is_reported readonly_env "D" tracked_world _ eq_refl)
    as [_ Hinit].
  split.
  - rewrite (Hupd _ _ eq_refl eq_refl eq_refl). reflexivity.
  - rewrite (Hinit eq_refl). reflexivity.
Defined.

(* --------------------------------------------------------------------- *)
(** *** Arguments of the wrong kind *)
(* --------------------------------------------------------------------- *)

(** X9.  [main] on an argument of the wrong kind (not a directory for
    [init], neither a regular file nor a directory for [check], not a
    regular file for [update]) prints one error line and returns; the store
    file is neither opened nor changed. *)
Theorem main_rejects_wrong_kind (env : Env) (path : string) (w : World) :
  (isdir env path = false ->
   main env (CmdInit path) w
   = (Return tt, say ["Error: " +:+ path +:+ " is not a valid directory"] w))
  /\ (isfile env path = false -> isdir env path = false ->
      main env (CmdCheck path) w
      = (Return tt,
         say ["Error: " +:+ path +:+ " is not a valid file or directory"] w))
  /\ (isfile env path = false ->
      main env (CmdUpdate path) w
      = (Return tt, say ["Error: " +:+ path +:+ " is not a valid file"] w)).
Proof.
  split; [| split].
  - intros Hdir. cbn [main].
    erewrite bind_return by (apply initialize_not_dir; exact Hdir). reflexivity.
  - intros Hfile Hdir. cbn [main]. rewrite Hfile, Hdir. reflexivity.
  - intros Hfile. cbn [main].
    erewrite bind_return by (apply update_file_not_file; exact Hfile). reflexivity.
Qed.

Lemma main_rejects_wrong_kind_witness :
  isdir demo_env "a.log" = false
  /\ isfile demo_env "nowhere" = false
  /\ isdir demo_env "nowhere" = false
  /\ isfile demo_env "D" = false
  /\ main demo_env (CmdInit "a.log") locked_world
     = (Return tt,
        mkWorld (store_file locked_world)
          ["Error: a.log is not a valid directory"] [])
  /\ main demo_env (CmdCheck "nowhere") locked_world
     = (Return tt,
        mkWorld (store_file locked_world)
          ["Error: nowhere is not a valid file or directory"] [])
  /\ main demo_env (CmdUpdate "D") locked_world
     = (Return tt,
        mkWorld (store_file locked_world)
          ["Error: D is not a valid file"] []).
Proof.
  split; [reflexivity |]. split; [reflexivity |].
  split; [reflexivity |]. split; [reflexivity |].
  destruct (main_rejects_wrong_kind demo_env "a.log" locked_world) as (H1 & _ & _).
  destruct (main_rejects_wrong_kind demo_env "nowhere" locked_world) as (_ & H2 & _).
  destruct (main_rejects_wrong_kind demo_env "D" locked_world) as (_ & _ & H3).
  rewrite (H1 eq_refl), (H2 eq_refl eq_refl), (H3 eq_refl).
  repeat split.
Defined.

(* --------------------------------------------------------------------- *)
(** *** How [check] touches the store file *)
(* --------------------------------------------------------------------- *)

Section Preserves.

Context {X : Type} (f : World -> X).

Lemma preserves_mret {A} (a : A) : preserves f (mret a : M A).
Proof. intros w. reflexivity. Qed.

Lemma preserves_raise {A} (e : exn) : preserves f (raise e : M A).
Proof. intros w. reflexivity. Qed.

Lemma preserves_lift {A} (r : exn + A) : preserves f (lift r).
Proof. destruct r; [apply preserves_raise | apply preserves_mret]. Qed.

Lemma preserves_bind {A B} (m : M A) (k : A -> M B) :
  preserves f m -> (forall a, preserves f (k a)) -> preserves f (m ≫= k).
Proof.
  intros Hm Hk w. unfold mbind, M_bind.
  specialize (Hm w). destruct (m w) as [[a | e |] w']; simpl in *.
  - rewrite Hk. exact Hm.
  - exact Hm.
  - exact Hm.
Qed.

(** Once the first step is done, a continuation that preserves [f] leaves
    it as the first step left it. *)
Lemma preserves_after {A B} (m : M A) (k : A -> M B) (w : World) :
  (forall a, preserves f (k a)) -> f ((m ≫= k) w).2 = f (m w).2.
Proof.
  intros Hk. unfold mbind, M_bind.
  destruct (m w) as [[a | e |] w']; simpl; [apply Hk | reflexivity | reflexivity].
Qed.

Lemma preserves_if {A} (b : bool) (m1 m2 : M A) :
  preserves f m1 -> preserves f m2 -> preserves f (if b then m1 else m2).
Proof. destruct b; auto. Qed.

End Preserves.

Section OpensFacts.

Variable env : Env.

Lemma opens_print (line : string) : preserves store_opens (print line).
Proof. intros w. reflexivity. Qed.

Lemma opens_print_all (lines : list string) :
  preserves store_opens (print_all lines).
Proof. intros w. rewrite print_all_spec. reflexivity. Qed.

Lemma opens_compute_file_hash (p : string) :
  preserves store_opens (compute_file_hash env p).
Proof. intros w. rewrite compute_file_hash_spec. reflexivity. Qed.

Lemma opens_load_hash_store (w : World) :
  store_opens (load_hash_store w).2 = (store_opens w ++ ["r"])%list.
Proof.
  unfold load_hash_store.
  rewrite (preserves_after store_opens); [reflexivity |].
  intros [| e | | e | doc]; (apply preserves_mret || apply preserves_raise).
Qed.

Lemma opens_say_then_mret {A} (line : string) (a : A) :
  preserves store_opens (_ ← print line; (mret a : M A)).
Proof.
  apply preserves_bind; [apply opens_print | intros; apply preserves_mret].
Qed.

Lemma opens_check_walk (doc : toplevel) (paths : list string) :
  forall ms ns, preserves store_opens (check_walk env doc paths ms ns).
Proof.
  induction paths as [| p rest IH]; intros ms ns; cbn [check_walk].
  - apply preserves_mret.
  - apply preserves_bind; [apply opens_compute_file_hash | intros h].
    apply preserves_bind; [apply preserves_lift | intros present].
    apply preserves_if; [apply IH |].
    apply preserves_bind; [apply preserves_lift | intros stored].
    apply preserves_if; apply IH.
Qed.

End OpensFacts.

(** X10.  [check_file] opens the store file exactly once, for reading,
    when its argument is a regular file, and not at all otherwise;
    [check_directory] likewise for a directory.  Neither ever opens it for
    writing, whatever the store file holds and whether or not they
    raise. *)
Theorem check_opens_store_once_for_reading
    (env : Env) (path : string) (w : World) :
  store_opens (check_file env path w).2
  = (store_opens w ++ (if isfile env path then ["r"] else []))%list
  /\ store_opens (check_directory env path w).2
     = (store_opens w ++ (if isdir env path then ["r"] else []))%list.
Proof.
  split.
  - unfold check_file. destruct (isfile env path); cbn [negb].
    + rewrite (preserves_after store_opens); [apply opens_load_hash_store |].
      intros doc.
      apply preserves_bind; [apply opens_compute_file_hash | intros h].
      apply preserves_bind; [apply preserves_lift | intros present].
      apply preserves_if; [apply opens_say_then_mret |].
      apply preserves_bind; [apply preserves_lift | intros stored].
      apply preserves_if; apply opens_say_then_mret.
    + rewrite opens_say_then_mret, app_nil_r. reflexivity.
  - unfold check_directory. destruct (isdir env path); cbn [negb].
    + rewrite (preserves_after store_opens); [apply opens_load_hash_store |].
      intros doc.
      apply preserves_bind; [apply opens_check_walk | intros [ms ns]].
      apply preserves_if; [apply opens_say_then_mret |].
      apply preserves_bind.
      { apply preserves_if; [| apply preserves_mret].
        apply preserves_bind; [apply opens_print | intros; apply opens_print_all]. }
      intros _. apply preserves_bind; [| intros; apply preserves_mret].
      apply preserves_if; [| apply preserves_mret].
      apply preserves_bind; [apply opens_print | intros; apply opens_print_all].
    + rewrite opens_say_then_mret, app_nil_r. reflexivity.
Qed.

(* --------------------------------------------------------------------- *)
(** *** A store file that does not load as a mapping *)
(* --------------------------------------------------------------------- *)

(** X11.  When the store file cannot be opened for a reason other than its
    absence, the error is not caught: [check_file] on a regular file,
    [check_directory] on a directory and [update_file] on a readable
    regular file all raise it right after the failed open, having printed
    no verdict. *)
Theorem unopenable_store_raises
    (env : Env) (path : string) (w : World) (e : string) :
  store_file w = Unopenable e ->
  (isfile env path = true ->
   check_file env path w = (Raise (OSError e), opened ["r"] w))
  /\ (isdir env path = true ->
      check_directory env path w = (Raise (OSError e), opened ["r"] w))
  /\ (isfile env path = true -> is_Some (digest_of env path) ->
      update_file env path w = (Raise (OSError e), opened ["r"] w)).
Proof.
  intros Hs. split; [| split].
  - intros Hfile. unfold check_file. rewrite Hfile. cbn [negb].
    erewrite bind_raise by (apply load_hash_store_raises; exact Hs). reflexivity.
  - intros Hdir. unfold check_directory. rewrite Hdir. cbn [negb].
    erewrite bind_raise by (apply load_hash_store_raises; exact Hs). reflexivity.
  - intros Hfile [h Hh].
    rewrite (update_file_readable env path w h Hfile Hh), say_nil.
    erewrite bind_raise by (apply load_hash_store_raises; exact Hs). reflexivity.
Qed.

Lemma unopenable_store_raises_witness :
  store_file locked_world = Unopenable "[Errno 13] Permission denied"
  /\ isfile demo_env "a.log" = true
  /\ isdir demo_env "D" = true
  /\ is_Some (digest_of demo_env "a.log")
  /\ (check_file demo_env "a.log" locked_world).1
     = Raise (OSError "[Errno 13] Permission denied")
  /\ (check_directory demo_env "D" locked_world).1
     = Raise (OSError "[Errno 13] Permission denied")
  /\ (update_file demo_env "a.log" locked_world).1
     = Raise (OSError "[Errno 13] Permission denied").
Proof.
  assert (Hsome : is_Some (digest_of demo_env "a.log")) by (eexists; reflexivity).
  split; [reflexivity |]. split; [reflexivity |]. split; [reflexivity |].
  split; [exact Hsome |].
  destruct (unopenable_store_raises demo_env "a.log" locked_world _ eq_refl)
    as (Hc & _ & Hu).
  destruct (unopenable_store_raises demo_env "D" locked_world _ eq_refl)
    as (_ & Hd & _).
  rewrite (Hc eq_refl), (Hd eq_refl), (Hu eq_refl Hsome). repeat split.
Defined.

(** X12.  When the store file holds valid JSON that is not an object (an
    array, a string, a number, [true], [false] or [null]), [update_file] on
    a readable regular file raises [TypeError] at the item assignment: the
    store file is opened for reading only and keeps its content. *)
Theorem update_file_on_non_object_store
    (env : Env) (p : string) (w : World) (doc : toplevel) :
  isfile env p = true ->
  is_Some (digest_of env p) ->
  store_file w = Holds doc ->
  (forall d, doc <> TDict d) ->
  exists msg : string,
    update_file env p w = (Raise (TypeError msg), opened ["r"] w).
Proof.
  intros Hfile [h Hh] Hs Hnd.
  rewrite (update_file_readable env p w h Hfile Hh), say_nil.
  assert (Hdoc : loaded_doc (store_file w) = Some doc) by (rewrite Hs; reflexivity).
  step_with load_hash_store_ok.
  destruct doc as [d | | | | |]; [destruct (Hnd d eq_refl) | ..];
    eexists; erewrite bind_raise by reflexivity; reflexivity.
Qed.

Lemma update_file_on_non_object_store_witness :
  isfile demo_env "a.log" = true
  /\ is_Some (digest_of demo_env "a.log")
  /\ store_file array_world = Holds (TList [])
  /\ (forall d, TList [] <> TDict d)
  /\ exists msg,
       update_file demo_env "a.log" array_world
       = (Raise (TypeError msg), opened ["r"] array_world).
Proof.
  assert (Hsome : is_Some (digest_of demo_env "a.log")) by (eexists; reflexivity).
  assert (Hnd : forall d, TList [] <> TDict d) by (intros d; discriminate).
  split; [reflexivity |]. split; [exact Hsome |]. split; [reflexivity |].
  split; [exact Hnd |].
  apply (update_file_on_non_object_store demo_env "a.log" array_world (TList [])
           eq_refl Hsome eq_refl Hnd).
Defined.

(** X13.  [check_file] on a regular file that cannot be read does not stop
    at the read error: it prints it and then a verdict all the same.  The
    file is new when the path is not tracked, modified when a digest string
    is stored, and unmodified, with answer [True], when the stored value is
    [null]. *)
Theorem check_file_on_unreadable_file
    (env : Env) (p : string) (w : World) (d : gmap string jvalue) (e : string) :
  isfile env p = true ->
  open_rb env p = ReadErr e ->
  loaded_dict (store_file w) = Some d ->
  let report := "Error reading file " +:+ p +:+ ": " +:+ e in
  (d !! p = None ->
   check_file env p w
   = (Return false,
      say [report; "Status: New file (not in hash store)"] (opened ["r"] w)))
  /\ (forall h, d !! p = Some (JStr h) ->
      check_file env p w
      = (Return false,
         say [report; "Status: Modified (Hash mismatch)"] (opened ["r"] w)))
  /\ (d !! p = Some JNull ->
      check_file env p w
      = (Return true, say [report; "Status: Unmodified"] (opened ["r"] w))).
Proof.
  intros Hfile Hread Hd report.
  assert (Hrun := check_file_spec env p w d Hfile Hd). cbn zeta in Hrun.
  unfold classify, digest_of, hash_report in Hrun. rewrite Hread in Hrun.
  split; [| split].
  - intros Hp. rewrite Hp in Hrun. exact Hrun.
  - intros h Hp. rewrite Hp in Hrun. exact Hrun.
  - intros Hp. rewrite Hp in Hrun. exact Hrun.
Qed.

Lemma check_file_on_unreadable_file_witness :
  isfile demo_env "D/z.log" = true
  /\ open_rb demo_env "D/z.log" = ReadErr "[Errno 13] Permission denied"
  /\ loaded_dict (store_file null_world) = Some {[ "D/z.log" := JNull ]}
  /\ check_file demo_env "D/z.log" null_world
     = (Return true,
        mkWorld (store_file null_world)
          ["Error reading file D/z.log: [Errno 13] Permission denied";
           "Status: Unmodified"]
          ["r"]).
Proof.
  split; [reflexivity |]. split; [reflexivity |]. split; [reflexivity |].
  destruct (check_file_on_unreadable_file demo_env "D/z.log" null_world
              {[ "D/z.log" := JNull ]} _ eq_refl eq_refl eq_refl)
    as (_ & _ & Hnull).
  rewrite Hnull by reflexivity. reflexivity.
Defined.

(* --------------------------------------------------------------------- *)
(** *** [update_file] again, and next to other paths *)
(* --------------------------------------------------------------------- *)

(** X14.  [update_file] is idempotent: after a run that answered [True], a
    second run on the same unchanged file answers [True] again and leaves
    the store file exactly as the first run left it. *)
Theorem update_file_idempotent (env : Env) (p : string) (w w1 : World) :
  update_file env p w = (Return true, w1) ->
  exists w2 : World,
    update_file env p w1 = (Return true, w2)
    /\ store_file w2 = store_file w1.
Proof.
  intros Hupd.
  destruct (update_file_true_inv env p w w1 Hupd)
    as (h & d & Hfile & Hh & Hd & Hw).
  rewrite (update_file_ok env p w h d Hfile Hh Hd Hw) in Hupd.
  injection Hupd as <-.
  eexists. split.
  - apply (update_file_ok env p _ h (<[p := JStr h]> d)); auto.
  - cbn [store_file say with_store]. rewrite insert_insert_eq. reflexivity.
Qed.

Lemma update_file_idempotent_witness :
  update_file demo_env "a.log" tracked_world
  = (Return true, (update_file demo_env "a.log" tracked_world).2)
  /\ store_file
       (update_file demo_env "a.log"
          (update_file demo_env "a.log" tracked_world).2).2
     = store_file (update_file demo_env "a.log" tracked_world).2.
Proof.
  assert (H1 : update_file demo_env "a.log" tracked_world
               = (Return true, (update_file demo_env "a.log" tracked_world).2))
    by (vm_compute; reflexivity).
  split; [exact H1 |].
  destruct (update_file_idempotent demo_env "a.log" tracked_world _ H1)
    as (w2 & Hrun & Hsame).
  rewrite Hrun. exact Hsame.
Defined.

(** X15.  A successful [update_file q] does not change what [check_file]
    says about any other path [p]: same verdict line, same answer, before
    and after. *)
Theorem update_keeps_other_verdicts
    (env env' : Env) (p q : string) (w w1 : World) :
  p <> q ->
  update_file env q w = (Return true, w1) ->
  isfile env' p = true ->
  exists v : verdict,
    check_file env' p w
    = (Return (verdict_ok v),
       say (hash_report env' p ++ [verdict_line v]) (opened ["r"] w))
    /\ check_file env' p w1
       = (Return (verdict_ok v),
          say (hash_report env' p ++ [verdict_line v]) (opened ["r"] w1)).
Proof.
  intros Hne Hupd Hfile'.
  destruct (update_file_true_inv env q w w1 Hupd)
    as (h & d & Hfile & Hh & Hd & Hw).
  rewrite (update_file_ok env q w h d Hfile Hh Hd Hw) in Hupd.
  injection Hupd as <-.
  exists (classify d p (digest_of env' p)). split.
  - apply check_file_spec; assumption.
  - erewrite check_file_spec; [| exact Hfile' | reflexivity].
    unfold classify. rewrite lookup_insert_ne by congruence. reflexivity.
Qed.

Lemma update_keeps_other_verdicts_witness :
  "D/z.log" <> "a.log"
  /\ update_file demo_env "a.log" tracked_world
     = (Return true, (update_file demo_env "a.log" tracked_world).2)
  /\ isfile demo_env "D/z.log" = true
  /\ (check_file demo_env "D/z.log"
        (update_file demo_env "a.log" tracked_world).2).1
     = (check_file demo_env "D/z.log" tracked_world).1.
Proof.
  assert (H0 : "D/z.log" <> "a.log") by discriminate.
  assert (H1 : update_file demo_env "a.log" tracked_world
               = (Return true, (update_file demo_env "a.log" tracked_world).2))
    by (vm_compute; reflexivity).
  split; [exact H0 |]. split; [exact H1 |]. split; [reflexivity |].
  destruct (update_keeps_other_verdicts demo_env demo_env "D/z.log" "a.log"
              tracked_world _ H0 H1 eq_refl) as (v & Hbefore & Hafter).
  rewrite Hbefore, Hafter. reflexivity.
Defined.

(** X16.  An answer [True] from [update_file] or [initialize] means the
    store file was written: after [update_file] it loads as a mapping that
    gives the path the digest of the content just read; after [initialize]
    it holds the mapping built from the walk. *)
Theorem true_means_persisted (env : Env) (path : string) (w w1 : World) :
  (update_file env path w = (Return true, w1) ->
   exists content d1,
     open_rb env path = ReadOk content
     /\ load_hash_store w1 = (Return (TDict d1), opened ["r"] w1)
     /\ d1 !! path = Some (JStr (Sha256.hexdigest content)))
  /\ (initialize env path w = (Return true, w1) ->
      isdir env path = true
      /\ load_hash_store w1
         = (Return (TDict (init_store env (walk_paths env path) ∅)),
            opened ["r"] w1)).
Proof.
  split.
  - intros Hupd.
    destruct (update_file_true_inv env path w w1 Hupd)
      as (h & d & Hfile & Hh & Hd & Hw).
    rewrite (update_file_ok env path w h d Hfile Hh Hd Hw) in Hupd.
    injection Hupd as <-.
    unfold digest_of in Hh.
    destruct (open_rb env path) as [content |]; [| discriminate].
    injection Hh as <-.
    exists content, (<[path := JStr (Sha256.hexdigest content)]> d).
    split; [reflexivity |].
    split; [apply load_hash_store_ok; reflexivity | apply lookup_insert_eq].
  - intros Hinit.
    destruct (isdir env path) eqn:Hdir;
      [| rewrite initialize_not_dir in Hinit by exact Hdir; discriminate].
    split; [reflexivity |].
    destruct (store_write env) eqn:Hw.
    + rewrite (initialize_ok env path w Hdir Hw) in Hinit.
      injection Hinit as <-. apply load_hash_store_ok. reflexivity.
    + rewrite (initialize_dir env path w Hdir) in Hinit.
      erewrite bind_return in Hinit
        by (apply save_hash_store_open_fails; exact Hw).
      discriminate.
    + rewrite (initialize_dir env path w Hdir) in Hinit.
      erewrite bind_return in Hinit
        by (apply save_hash_store_write_fails; exact Hw).
      discriminate.
Qed.

Lemma true_means_persisted_witness :
  exists w1 content d1,
       update_file demo_env "a.log" fresh_world = (Return true, w1)
       /\ open_rb demo_env "a.log" = ReadOk content
       /\ d1 !! "a.log" = Some (JStr (Sha256.hexdigest content))
       /\ (load_hash_store w1).1 = Return (TDict d1).
Proof.
  assert (H1 : update_file demo_env "a.log" fresh_world
               = (Return true, (update_file demo_env "a.log" fresh_world).2))
    by (vm_compute; reflexivity).
  destruct (true_means_persisted demo_env "a.log" fresh_world
              (update_file demo_env "a.log" fresh_world).2) as [Hupd _].
  destruct (Hupd H1) as (content & d1 & Hread & Hload & Hp).
  exists (update_file demo_env "a.log" fresh_world).2, content, d1.
  split; [exact H1 |]. split; [exact Hread |]. split; [exact Hp |].
  rewrite Hload. reflexivity.
Defined.

(* --------------------------------------------------------------------- *)
(** *** What an answer [True] from [check] guarantees *)
(* --------------------------------------------------------------------- *)

Lemma verdict_ok_classify (d : gmap string jvalue) (p : string) (h : option string) :
  verdict_ok (classify d p h) = true
  <-> exists stored, d !! p = Some stored /\ py_eq h stored = true.
Proof.
  unfold classify. destruct (d !! p) as [stored |].
  - destruct (py_eq h stored) eqn:E; simpl; split.
    + eauto.
    + reflexivity.
    + discriminate.
    + intros (s & [= <-] & Hs). congruence.
  - simpl. split; [discriminate | intros (s & Hs & _); discriminate].
Qed.

(** [check_file] with a document that is not a dictionary never answers
    [True]: it reports a new file or raises. *)
Lemma check_file_non_dict (env : Env) (p : string) (w : World) (doc : toplevel) :
  isfile env p = true ->
  loaded_doc (store_file w) = Some doc ->
  (forall d, doc <> TDict d) ->
  (check_file env p w).1 <> Return true.
Proof.
  intros Hfile Hdoc Hnd. unfold check_file. rewrite Hfile. cbn [negb].
  step_with load_hash_store_ok. step_with compute_file_hash_spec.
  destruct doc as [d | items | s | | |]; [destruct (Hnd d eq_refl) | ..];
    cbn [contains lift];
    try (erewrite bind_raise by reflexivity; discriminate).
  - erewrite bind_return by reflexivity.
    destruct (existsb (str_eq p) items); cbn [negb getitem lift].
    + erewrite bind_raise by reflexivity. discriminate.
    + erewrite bind_return by apply print_spec. discriminate.
  - erewrite bind_return by reflexivity.
    destruct (is_substring p s); cbn [negb getitem lift].
    + erewrite bind_raise by reflexivity. discriminate.
    + erewrite bind_return by apply print_spec. discriminate.
Qed.

(** X17.  [check_file] answers [True] only when its argument is a regular
    file, the store file loads as a mapping, and that mapping gives the
    path a value equal to the digest just computed; it has then printed
    "Status: Unmodified".  This holds for every state of the store file. *)
Theorem check_file_true_is_sound (env : Env) (p : string) (w w' : World) :
  check_file env p w = (Return true, w') ->
  isfile env p = true
  /\ w' = say (hash_report env p ++ ["Status: Unmodified"]) (opened ["r"] w)
  /\ exists d stored,
       loaded_dict (store_file w) = Some d
       /\ d !! p = Some stored
       /\ py_eq (digest_of env p) stored = true.
Proof.
  intros Hrun.
  destruct (isfile env p) eqn:Hfile;
    [| rewrite check_file_not_file in Hrun by exact Hfile; discriminate].
  split; [reflexivity |].
  destruct (loaded_doc (store_file w)) as [doc |] eqn:Hdoc.
  - destruct doc as [d | | | | |];
      try (exfalso;
           eapply (check_file_non_dict env p w); [exact Hfile | exact Hdoc | |];
           [intros d; discriminate | rewrite Hrun; reflexivity]).
    assert (Hd : loaded_dict (store_file w) = Some d)
      by (unfold loaded_dict; rewrite Hdoc; reflexivity).
    rewrite (check_file_spec env p w d Hfile Hd) in Hrun.
    injection Hrun as Hok <-.
    assert (Hok' := Hok). apply verdict_ok_classify in Hok'.
    destruct (classify d p (digest_of env p)); try discriminate.
    split; [reflexivity |]. destruct Hok' as (stored & Hs & Heq). eauto.
  - destruct (loaded_doc_none _ Hdoc) as [e He].
    unfold check_file in Hrun. rewrite Hfile in Hrun. cbn [negb] in Hrun.
    erewrite bind_raise in Hrun by (apply load_hash_store_fails; exact He).
    discriminate.
Qed.

Lemma check_file_true_is_sound_witness :
  check_file demo_env "a.log" (update_file demo_env "a.log" fresh_world).2
  = (Return true,
     (check_file demo_env "a.log" (update_file demo_env "a.log" fresh_world).2).2)
  /\ exists d stored,
       loaded_dict (store_file (update_file demo_env "a.log" fresh_world).2)
       = Some d
       /\ d !! "a.log" = Some stored
       /\ py_eq (digest_of demo_env "a.log") stored = true.
Proof.
  assert (H1 : check_file demo_env "a.log"
                 (update_file demo_env "a.log" fresh_world).2
               = (Return true,
                  (check_file demo_env "a.log"
                     (update_file demo_env "a.log" fresh_world).2).2))
    by (vm_compute; reflexivity).
  split; [exact H1 |].
  apply (check_file_true_is_sound demo_env "a.log" _ _ H1).
Defined.

(** The end of [check_directory], once the two lists are known. *)
Lemma check_directory_tail (ms ns : list string) (w : World) :
  (if is_nil ms && is_nil ns then
     _ ← print "All files unmodified."; mret true
   else
     _ ← (if negb (is_nil ms) then
            _ ← print modified_header; print_all (List.map bullet ms)
          else mret tt);
     _ ← (if negb (is_nil ns) then
            _ ← print new_header; print_all (List.map bullet ns)
          else mret tt);
     mret false) w
  = (Return (is_nil ms && is_nil ns), say (directory_report ms ns) w).
Proof.
  unfold directory_report. destruct (is_nil ms && is_nil ns).
  - erewrite bind_return by apply print_spec. reflexivity.
  - erewrite bind_return by apply listing_spec.
    erewrite bind_return by apply listing_spec.
    rewrite say_say. reflexivity.
Qed.

(** The list of new files only grows along the walk, whatever the store
    document is. *)
Lemma check_walk_new_grows (env : Env) (doc : toplevel) (paths : list string) :
  forall ms ns w ms' ns' w',
    check_walk env doc paths ms ns w = (Return (ms', ns'), w') ->
    (List.length ns <= List.length ns')%nat.
Proof.
  induction paths as [| p rest IH]; intros ms ns w ms' ns' w' Hrun;
    cbn [check_walk] in Hrun.
  - injection Hrun as _ <- _. lia.
  - erewrite bind_return in Hrun by apply compute_file_hash_spec.
    destruct (contains doc p) as [e | present]; cbn [lift] in Hrun;
      [erewrite bind_raise in Hrun by reflexivity; discriminate |].
    erewrite bind_return in Hrun by reflexivity.
    destruct present; cbn [negb] in Hrun.
    + destruct (getitem doc p) as [e | stored]; cbn [lift] in Hrun;
        [erewrite bind_raise in Hrun by reflexivity; discriminate |].
      erewrite bind_return in Hrun by reflexivity.
      destruct (negb (py_eq (digest_of env p) stored));
        apply IH in Hrun; exact Hrun.
    + apply IH in Hrun. rewrite length_app in Hrun. simpl in Hrun. lia.
Qed.

(** With a document that is not a dictionary the walk never gets past its
    first path without raising or noting a new file. *)
Lemma check_walk_non_dict (env : Env) (doc : toplevel) (p : string)
    (rest ms ns : list string) (w w' : World) (ms' ns' : list string) :
  (forall d, doc <> TDict d) ->
  check_walk env doc (p :: rest) ms ns w = (Return (ms', ns'), w') ->
  ns' <> [].
Proof.
  intros Hnd Hrun. cbn [check_walk] in Hrun.
  erewrite bind_return in Hrun by apply compute_file_hash_spec.
  destruct (contains doc p) as [e | present] eqn:Hc; cbn [lift] in Hrun;
    [erewrite bind_raise in Hrun by reflexivity; discriminate |].
  erewrite bind_return in Hrun by reflexivity.
  destruct present; cbn [negb] in Hrun.
  - destruct doc as [d | | | | |]; [destruct (Hnd d eq_refl) | ..];
      cbn [getitem lift] in Hrun;
      erewrite bind_raise in Hrun by reflexivity; discriminate.
  - apply check_walk_new_grows in Hrun.
    rewrite length_app in Hrun. simpl in Hrun.
    intros ->. simpl in Hrun. lia.
Qed.

Lemma filter_nil_iff {A} (f : A -> bool) (l : list A) :
  List.filter f l = [] <-> forall a, In a l -> f a = false.
Proof.
  split; [| apply filter_none_in].
  induction l as [| a l IH]; intros H b Hb; [destruct Hb |].
  cbn [List.filter] in H. destruct (f a) eqn:Hfa; [discriminate |].
  destruct Hb as [<- | Hb]; [exact Hfa | apply IH; assumption].
Qed.

Lemma lists_empty_iff (env : Env) (d : gmap string jvalue) (paths : list string) :
  is_nil (modified_paths env d paths) && is_nil (new_paths env d paths) = true
  <-> forall p, In p paths -> verdict_ok (classify d p (digest_of env p)) = true.
Proof.
  rewrite andb_true_iff, !is_nil_true. unfold modified_paths, new_paths.
  rewrite !filter_nil_iff. split.
  - intros [Hm Hn] p Hp. specialize (Hm p Hp). specialize (Hn p Hp).
    destruct (classify d p (digest_of env p)); simpl in *; congruence.
  - intros H. split; intros p Hp; specialize (H p Hp);
      destruct (classify d p (digest_of env p)); simpl in *; congruence.
Qed.

(** X18.  [check_directory] answers [True] only when its argument is a
    directory and every walked path has, in the mapping the store file
    loads as, a value equal to the digest just computed for it.  This holds
    for every state of the store file. *)
Theorem check_directory_true_is_sound
    (env : Env) (directory : string) (w w' : World) :
  check_directory env directory w = (Return true, w') ->
  isdir env directory = true
  /\ forall p, p ∈ walk_paths env directory ->
       exists d stored,
         loaded_dict (store_file w) = Some d
         /\ d !! p = Some stored
         /\ py_eq (digest_of env p) stored = true.
Proof.
  intros Hrun.
  destruct (isdir env directory) eqn:Hdir;
    [| rewrite check_directory_not_dir in Hrun by exact Hdir; discriminate].
  split; [reflexivity |].
  destruct (loaded_doc (store_file w)) as [doc |] eqn:Hdoc.
  - destruct (walk_paths env directory) as [| p0 rest] eqn:Hpaths;
      [intros p Hp; apply not_elem_of_nil in Hp; destruct Hp |].
    assert (Hdict : (exists d, doc = TDict d) \/ (forall d, doc <> TDict d)).
    { destruct doc; eauto; right; intros d; discriminate. }
    destruct Hdict as [[d ->] | Hnd].
    + assert (Hd : loaded_dict (store_file w) = Some d)
        by (unfold loaded_dict; rewrite Hdoc; reflexivity).
      rewrite (check_directory_spec env directory w d Hdir Hd) in Hrun.
      cbn zeta in Hrun. injection Hrun as Hok _.
      rewrite lists_empty_iff, Hpaths in Hok.
      intros p Hp. apply list_elem_of_In in Hp.
      apply Hok, verdict_ok_classify in Hp.
      destruct Hp as (stored & Hs & Heq). eauto.
    + exfalso. unfold check_directory in Hrun.
      rewrite Hdir, Hpaths in Hrun. cbn [negb] in Hrun.
      erewrite bind_return in Hrun by (apply load_hash_store_ok; exact Hdoc).
      destruct (check_walk env doc (p0 :: rest) [] [] (opened ["r"] w))
        as [[[ms ns] | e |] w2] eqn:Hwalk.
      * erewrite bind_return in Hrun by exact Hwalk.
        cbv beta iota in Hrun. rewrite check_directory_tail in Hrun.
        apply check_walk_non_dict in Hwalk; [| exact Hnd].
        destruct ns; [congruence |].
        rewrite andb_false_r in Hrun. discriminate.
      * erewrite bind_raise in Hrun by exact Hwalk. discriminate.
      * unfold mbind, M_bind in Hrun. rewrite Hwalk in Hrun. discriminate.
  - destruct (loaded_doc_none _ Hdoc) as [e He].
    unfold check_directory in Hrun. rewrite Hdir in Hrun. cbn [negb] in Hrun.
    erewrite bind_raise in Hrun by (apply load_hash_store_fails; exact He).
    discriminate.
Qed.

Lemma check_directory_true_is_sound_witness :
  check_directory tidy_env "D" (initialize tidy_env "D" fresh_world).2
  = (Return true,
     (check_directory tidy_env "D" (initialize tidy_env "D" fresh_world).2).2)
  /\ isdir tidy_env "D" = true
  /\ exists d stored,
       loaded_dict (store_file (initialize tidy_env "D" fresh_world).2) = Some d
       /\ d !! "D/y.log" = Some stored
       /\ py_eq (digest_of tidy_env "D/y.log") stored = true.
Proof.
  assert (H1 : check_directory tidy_env "D"
                 (initialize tidy_env "D" fresh_world).2
               = (Return true,
                  (check_directory tidy_env "D"
                     (initialize tidy_env "D" fresh_world).2).2))
    by (vm_compute; reflexivity).
  split; [exact H1 |].
  destruct (check_directory_true_is_sound tidy_env "D" _ _ H1) as [Hdir Hall].
  split; [exact Hdir |].
  apply Hall. vm_compute.
  apply elem_of_cons. right. apply elem_of_cons. left. reflexivity.
Defined.

(* --------------------------------------------------------------------- *)
(** *** [check_directory] against [check_file], and its two lists *)
(* --------------------------------------------------------------------- *)

(** X19.  On a directory whose walked paths are all regular files, with a
    store that loads as a mapping, [check_directory] answers [True] exactly
    when [check_file] answers [True] on each walked path. *)
Theorem check_directory_agrees_with_check_file
    (env : Env) (directory : string) (w : World) (d : gmap string jvalue) :
  isdir env directory = true ->
  loaded_dict (store_file w) = Some d ->
  (forall p, p ∈ walk_paths env directory -> isfile env p = true) ->
  (check_directory env directory w).1 = Return true
  <-> forall p, p ∈ walk_paths env directory ->
        (check_file env p w).1 = Return true.
Proof.
  intros Hdir Hd Hfiles.
  rewrite (check_directory_spec env directory w d Hdir Hd). cbn zeta. cbn [fst].
  split.
  - intros [= Hok] p Hp. rewrite lists_empty_iff in Hok.
    rewrite (check_file_spec env p w d (Hfiles p Hp) Hd). cbn zeta. cbn [fst].
    f_equal. apply Hok, list_elem_of_In, Hp.
  - intros Hall. f_equal. apply lists_empty_iff. intros p Hp.
    apply list_elem_of_In in Hp. specialize (Hall p Hp).
    rewrite (check_file_spec env p w d (Hfiles p Hp) Hd) in Hall.
    cbn zeta in Hall. cbn [fst] in Hall. congruence.
Qed.

Lemma check_directory_agrees_with_check_file_witness :
  isdir tidy_env "D" = true
  /\ loaded_dict (store_file (initialize tidy_env "D" fresh_world).2)
     = Some (init_store tidy_env (walk_paths tidy_env "D") ∅)
  /\ (forall p, p ∈ walk_paths tidy_env "D" -> isfile tidy_env p = true)
  /\ (check_file tidy_env "D/x.log" (initialize tidy_env "D" fresh_world).2).1
     = Return true.
Proof.
  assert (Hd : loaded_dict (store_file (initialize tidy_env "D" fresh_world).2)
               = Some (init_store tidy_env (walk_paths tidy_env "D") ∅))
    by (vm_compute; reflexivity).
  assert (Hfiles : forall p, p ∈ walk_paths tidy_env "D"
                             -> isfile tidy_env p = true).
  { intros p Hp. vm_compute in Hp.
    apply elem_of_cons in Hp as [-> | Hp]; [reflexivity |].
    apply list_elem_of_singleton in Hp. subst p. reflexivity. }
  assert (Hdir : (check_directory tidy_env "D"
                    (initialize tidy_env "D" fresh_world).2).1 = Return true)
    by (vm_compute; reflexivity).
  assert (Hx : "D/x.log" ∈ walk_paths tidy_env "D").
  { vm_compute. apply elem_of_cons. left. reflexivity. }
  split; [reflexivity |]. split; [exact Hd |]. split; [exact Hfiles |].
  destruct (check_directory_agrees_with_check_file tidy_env "D" _ _
              eq_refl Hd Hfiles) as [Hall _].
  apply (Hall Hdir "D/x.log" Hx).
Defined.

Lemma filter_sublist {A} (f : A -> bool) (l : list A) :
  sublist (List.filter f l) l.
Proof.
  induction l as [| a l IH]; cbn [List.filter]; [constructor |].
  destruct (f a); [apply sublist_skip | apply sublist_cons]; exact IH.
Qed.

Lemma filter_exclusive_length {A} (f g : A -> bool) (l : list A) :
  (forall a, f a = true -> g a = false) ->
  (List.length (List.filter f l) + List.length (List.filter g l)
   <= List.length l)%nat.
Proof.
  intros Hex. induction l as [| a l IH]; cbn [List.filter]; [simpl; lia |].
  destruct (f a) eqn:Hfa.
  - rewrite (Hex a Hfa). simpl. lia.
  - destruct (g a); simpl; lia.
Qed.

(** X20.  The loop of [check_directory], with a store that is a mapping,
    runs to the end of the walk and returns two lists that follow the order
    of the walk; no path is in both, and together they are no longer than
    the walk. *)
Theorem check_walk_lists_are_disjoint_and_ordered
    (env : Env) (d : gmap string jvalue) (paths : list string) (w : World) :
  exists modified_files new_files : list string,
    check_walk env (TDict d) paths [] [] w
    = (Return (modified_files, new_files), say (hash_reports env paths) w)
    /\ sublist modified_files paths
    /\ sublist new_files paths
    /\ (forall p, p ∈ modified_files -> p ∉ new_files)
    /\ (List.length modified_files + List.length new_files
        <= List.length paths)%nat.
Proof.
  exists (modified_paths env d paths), (new_paths env d paths).
  split; [rewrite check_walk_spec; reflexivity |].
  unfold modified_paths, new_paths.
  split; [apply filter_sublist |]. split; [apply filter_sublist |].
  split.
  - intros p Hm Hn.
    apply list_elem_of_In, filter_In in Hm as [_ Hm].
    apply list_elem_of_In, filter_In in Hn as [_ Hn].
    destruct (classify d p (digest_of env p)); discriminate.
  - apply filter_exclusive_length. intros p Hm.
    destruct (classify d p (digest_of env p)); (discriminate || reflexivity).
Qed.

(* --------------------------------------------------------------------- *)
(** *** The order of the walk *)
(* --------------------------------------------------------------------- *)

Lemma hashed_count_perm (env : Env) (paths paths' : list string) :
  Permutation paths paths' -> hashed_count env paths = hashed_count env paths'.
Proof.
  intros Hperm. induction Hperm as [| p l l' _ IH | p q l | l1 l2 l3 _ IH1 _ IH2].
  - reflexivity.
  - rewrite !hashed_count_cons, IH. reflexivity.
  - rewrite !hashed_count_cons. lia.
  - congruence.
Qed.

(** X21.  The mapping and the count that the loop of [initialize] builds
    depend on which paths the walk yields, not on their order. *)
Theorem init_walk_order_irrelevant
    (env : Env) (paths paths' : list string) (w : World) :
  Permutation paths paths' ->
  exists (store : gmap string jvalue) (n : nat),
    (init_walk env paths ∅ 0 w).1 = Return (store, n)
    /\ (init_walk env paths' ∅ 0 w).1 = Return (store, n).
Proof.
  intros Hperm.
  exists (init_store env paths ∅), (hashed_count env paths).
  rewrite !init_walk_spec. cbn [fst]. split; [reflexivity |].
  rewrite (hashed_count_perm env paths paths' Hperm).
  f_equal. f_equal. apply map_eq. intros p.
  rewrite !init_store_lookup.
  destruct (digest_of env p); [| reflexivity].
  rewrite (bool_decide_ext (p ∈ paths') (p ∈ paths)); [reflexivity |].
  rewrite Hperm. reflexivity.
Qed.

Lemma init_walk_order_irrelevant_witness :
  Permutation ["D/x.log"; "D/z.log"; "D/y.log"] ["D/y.log"; "D/x.log"; "D/z.log"]
  /\ (init_walk demo_env ["D/x.log"; "D/z.log"; "D/y.log"] ∅ 0 fresh_world).1
     = (init_walk demo_env ["D/y.log"; "D/x.log"; "D/z.log"] ∅ 0 fresh_world).1.
Proof.
  assert (Hperm : Permutation ["D/x.log"; "D/z.log"; "D/y.log"]
                              ["D/y.log"; "D/x.log"; "D/z.log"]).
  { etransitivity; [apply perm_skip, perm_swap |]. apply perm_swap. }
  split; [exact Hperm |].
  destruct (init_walk_order_irrelevant demo_env _ _ fresh_world Hperm)
    as (store & n & H1 & H2).
  rewrite H1, H2. reflexivity.
Defined.
